(** * SettingLogger of the SequenceTester device adapter

    Shallow embedding of [src/DeviceAdapters/SequenceTester/SettingLogger.h].
    The header declares the data, the inline helpers [GetNextCount],
    [GetNextGlobalImageCount] and [Reset], and the [SettingValue] accessors;
    these are translated from the source.  The bodies of the public methods
    (SetInteger, GetInteger, ..., MarkBusy, IsBusy, PackAndReset) live in a
    translation unit that is not part of the sources at hand; they are
    modelled from the specification and marked as such.

    Each public method takes the recursive mutex for its whole duration, so
    it is modelled as one atomic step on the logger state. *)

From Stdlib Require Import ZArith List String Floats Sorting.Sorted Lia.
Import ListNotations.
Open Scope Z_scope.

(** ** Machine integers *)

(** [uint64_t] and [unsigned] with their wrap-around. *)
Definition uint64_wrap (z : Z) : Z := z mod 2 ^ 64.
Definition unsigned_wrap (z : Z) : Z := z mod 2 ^ 32.

(** ** Setting values (SettingLogger.h, lines 48-93) *)

(** The class hierarchy [SettingValue] with its four concrete subclasses;
    [long] is kept as [Z], [double] as a primitive float. *)
Inductive SettingValue : Type :=
| IntegerSettingValue (value_ : Z)
| FloatSettingValue (value_ : float)
| StringSettingValue (value_ : string)
| OneShotSettingValue.

(** The virtual accessors: the base class returns [0], [0.0] and the empty
    string; each subclass overrides exactly its own accessor. *)
Module SettingValue.
Definition GetInteger (v : SettingValue) : Z :=
  match v with
  | IntegerSettingValue x => x
  | _ => 0
  end.

Definition GetFloat (v : SettingValue) : float :=
  match v with
  | FloatSettingValue x => x
  | _ => 0.0%float
  end.

Definition GetString (v : SettingValue) : string :=
  match v with
  | StringSettingValue x => x
  | _ => EmptyString
  end.
End SettingValue.

(** ** Setting keys (lines 96-111) *)

Record SettingKey : Type := mkSettingKey {
  device_ : string;
  key_ : string
}.

(** [std::string::operator<]: byte-wise lexicographic order. *)
Definition string_lt (a b : string) : bool :=
  match String.compare a b with Lt => true | _ => false end.

(** [SettingKey::operator<]. *)
Definition SettingKey_lt (lhs rhs : SettingKey) : bool :=
  string_lt (device_ lhs) (device_ rhs) ||
  (String.eqb (device_ lhs) (device_ rhs) && string_lt (key_ lhs) (key_ rhs)).

(** ** Ordered maps ([std::map]) *)

(** A [std::map] as an association list kept sorted by the strict order
    [lt] of its key type; two keys are the same entry when neither is less
    than the other, as in the standard library. *)
Module OrdMap.
Section OrdMap.
Context {K V : Type} (lt : K -> K -> bool).

(** [m[k] = v]. *)
Fixpoint assign (k : K) (v : V) (m : list (K * V)) : list (K * V) :=
  match m with
  | [] => [(k, v)]
  | (k', v') :: t =>
      if lt k k' then (k, v) :: m
      else if lt k' k then (k', v') :: assign k v t
      else (k, v) :: t
  end.

(** [m.find(k)]. *)
Fixpoint find (k : K) (m : list (K * V)) : option V :=
  match m with
  | [] => None
  | (k', v') :: t =>
      if lt k k' then None
      else if lt k' k then find k t
      else Some v'
  end.
End OrdMap.
End OrdMap.

(** [typedef std::map<SettingKey, shared_ptr<SettingValue>> SettingMap]. *)
Definition SettingMap := list (SettingKey * SettingValue).

(** [std::map<std::string, unsigned>]. *)
Definition BusyMap := list (string * Z).

(** ** Setting events and camera info (lines 114-143) *)

Record SettingEvent : Type := mkSettingEvent {
  ev_key : SettingKey;
  ev_value : SettingValue;
  ev_count : Z
}.

Record CameraInfo : Type := mkCameraInfo {
  camera_ : string;
  isSequence_ : bool;
  serialNum_ : Z;
  frameNum_ : Z
}.

(** ** The logger state (lines 146-195) *)

Record SettingLogger : Type := mkSettingLogger {
  counter_ : Z;
  counterAtLastReset_ : Z;
  globalImageCount_ : Z;
  settingValues_ : SettingMap;
  startingValues_ : SettingMap;
  settingEvents_ : list SettingEvent;
  busyPoints_ : BusyMap
}.

(** The constructor (lines 149-153). *)
Definition NewSettingLogger : SettingLogger :=
  {| counter_ := 0; counterAtLastReset_ := 0; globalImageCount_ := 0;
     settingValues_ := []; startingValues_ := []; settingEvents_ := [];
     busyPoints_ := [] |}.

Definition set_counter (c : Z) (s : SettingLogger) : SettingLogger :=
  {| counter_ := c; counterAtLastReset_ := counterAtLastReset_ s;
     globalImageCount_ := globalImageCount_ s;
     settingValues_ := settingValues_ s; startingValues_ := startingValues_ s;
     settingEvents_ := settingEvents_ s; busyPoints_ := busyPoints_ s |}.

Definition set_globalImageCount (c : Z) (s : SettingLogger) : SettingLogger :=
  {| counter_ := counter_ s; counterAtLastReset_ := counterAtLastReset_ s;
     globalImageCount_ := c;
     settingValues_ := settingValues_ s; startingValues_ := startingValues_ s;
     settingEvents_ := settingEvents_ s; busyPoints_ := busyPoints_ s |}.

Definition set_settingValues (m : SettingMap) (s : SettingLogger) : SettingLogger :=
  {| counter_ := counter_ s; counterAtLastReset_ := counterAtLastReset_ s;
     globalImageCount_ := globalImageCount_ s;
     settingValues_ := m; startingValues_ := startingValues_ s;
     settingEvents_ := settingEvents_ s; busyPoints_ := busyPoints_ s |}.

Definition set_settingEvents (l : list SettingEvent) (s : SettingLogger) : SettingLogger :=
  {| counter_ := counter_ s; counterAtLastReset_ := counterAtLastReset_ s;
     globalImageCount_ := globalImageCount_ s;
     settingValues_ := settingValues_ s; startingValues_ := startingValues_ s;
     settingEvents_ := l; busyPoints_ := busyPoints_ s |}.

Definition set_busyPoints (b : BusyMap) (s : SettingLogger) : SettingLogger :=
  {| counter_ := counter_ s; counterAtLastReset_ := counterAtLastReset_ s;
     globalImageCount_ := globalImageCount_ s;
     settingValues_ := settingValues_ s; startingValues_ := startingValues_ s;
     settingEvents_ := settingEvents_ s; busyPoints_ := b |}.

(** ** Helpers called with the mutex held (lines 197-205) *)

(** [uint64_t GetNextCount() { return counter_++; }] *)
Definition GetNextCount (s : SettingLogger) : Z * SettingLogger :=
  (counter_ s, set_counter (uint64_wrap (counter_ s + 1)) s).

(** [uint64_t GetNextGlobalImageCount() { return globalImageCount_++; }] *)
Definition GetNextGlobalImageCount (s : SettingLogger) : Z * SettingLogger :=
  (globalImageCount_ s,
   set_globalImageCount (uint64_wrap (globalImageCount_ s + 1)) s).

(** [Reset()]: assigns [counterAtLastReset_], [startingValues_] and clears
    [settingEvents_]; nothing else. *)
Definition Reset (s : SettingLogger) : SettingLogger :=
  {| counter_ := counter_ s; counterAtLastReset_ := counter_ s;
     globalImageCount_ := globalImageCount_ s;
     settingValues_ := settingValues_ s; startingValues_ := settingValues_ s;
     settingEvents_ := []; busyPoints_ := busyPoints_ s |}.

(** ** Serialized snapshot

    The byte-level msgpack encoding is delegated to the serializer library;
    the snapshot is kept as the sequence of items it encodes. *)
Record Packed : Type := mkPacked {
  pk_camera : CameraInfo;
  pk_globalImageCount : Z;
  pk_busy : list string;
  pk_starting : SettingMap;
  pk_history : list SettingEvent
}.

(** Devices holding a nonzero busy count, in map order. *)
Definition busy_devices (b : BusyMap) : list string :=
  map fst (filter (fun e => negb (snd e =? 0)) b).

(** ** Public methods *)

Module Logger.
Section Methods.

(** Number of bytes the serializer produces for a snapshot. *)
Variable packed_size : Packed -> Z.
(** Key name under which [MarkBusy] records its event. *)
Variable BusyKeyName : string.

(** Modelled from the spec: common body of [SetInteger], [SetFloat],
    [SetString] and [FireOneShot] (SettingLogger.cpp, not available): store
    the value under (device, key) in the live table and, if [logEvent],
    append an event carrying a fresh order index. *)
Definition SetValue (device key : string) (value : SettingValue)
    (logEvent : bool) (s : SettingLogger) : SettingLogger :=
  let k := mkSettingKey device key in
  let s1 := set_settingValues
              (OrdMap.assign SettingKey_lt k value (settingValues_ s)) s in
  if logEvent then
    let (c, s2) := GetNextCount s1 in
    set_settingEvents (settingEvents_ s2 ++ [mkSettingEvent k value c]) s2
  else s1.

Definition SetInteger (device key : string) (value : Z) (logEvent : bool) :=
  SetValue device key (IntegerSettingValue value) logEvent.
Definition SetFloat (device key : string) (value : float) (logEvent : bool) :=
  SetValue device key (FloatSettingValue value) logEvent.
Definition SetString (device key : string) (value : string) (logEvent : bool) :=
  SetValue device key (StringSettingValue value) logEvent.
Definition FireOneShot (device key : string) (logEvent : bool) :=
  SetValue device key OneShotSettingValue logEvent.

(** Modelled from the spec: the [const] queries look the key up in the live
    table and apply the typed accessor, with the accessor's default when the
    key is absent. *)
Definition lookup_value (s : SettingLogger) (device key : string)
  : option SettingValue :=
  OrdMap.find SettingKey_lt (mkSettingKey device key) (settingValues_ s).

Definition GetInteger (s : SettingLogger) (device key : string) : Z :=
  match lookup_value s device key with
  | Some v => SettingValue.GetInteger v
  | None => 0
  end.

Definition GetFloat (s : SettingLogger) (device key : string) : float :=
  match lookup_value s device key with
  | Some v => SettingValue.GetFloat v
  | None => 0.0%float
  end.

Definition GetString (s : SettingLogger) (device key : string) : string :=
  match lookup_value s device key with
  | Some v => SettingValue.GetString v
  | None => EmptyString
  end.

(** Modelled from the spec: the busy count of a device, zero when the
    device has no entry. *)
Definition busy_count (s : SettingLogger) (device : string) : Z :=
  match OrdMap.find string_lt device (busyPoints_ s) with
  | Some c => c
  | None => 0
  end.

(** Modelled from the spec: [MarkBusy] increments the device's [unsigned]
    busy count and, if [logEvent], records a one-shot event under the
    reserved key [BusyKeyName] of the device. *)
Definition MarkBusy (device : string) (logEvent : bool) (s : SettingLogger)
  : SettingLogger :=
  let s1 := set_busyPoints
              (OrdMap.assign string_lt device
                 (unsigned_wrap (busy_count s device + 1)) (busyPoints_ s)) s in
  if logEvent then
    let k := mkSettingKey device BusyKeyName in
    let (c, s2) := GetNextCount s1 in
    set_settingEvents (settingEvents_ s2 ++ [mkSettingEvent k OneShotSettingValue c]) s2
  else s1.

(** Modelled from the spec: [IsBusy] answers whether the count is nonzero
    and, unless [queryNonDestructively], consumes one busy point. *)
Definition IsBusy (device : string) (queryNonDestructively : bool)
    (s : SettingLogger) : bool * SettingLogger :=
  let c := busy_count s device in
  if c =? 0 then (false, s)
  else if queryNonDestructively then (true, s)
  else (true, set_busyPoints
                (OrdMap.assign string_lt device (c - 1) (busyPoints_ s)) s).

(** Modelled from the spec: the items [PackAndReset] serializes, in order:
    the frame descriptor with the global image count [imageCount], the busy
    devices, [startingValues_] and the event list. *)
Definition snapshot (camera : string) (isSequenceImage : bool)
    (cameraSeqNum acquisitionSeqNum imageCount : Z) (s : SettingLogger)
  : Packed :=
  {| pk_camera :=
       mkCameraInfo camera isSequenceImage cameraSeqNum acquisitionSeqNum;
     pk_globalImageCount := imageCount;
     pk_busy := busy_devices (busyPoints_ s);
     pk_starting := startingValues_ s;
     pk_history := settingEvents_ s |}.

(** Modelled from the spec: [PackAndReset] advances the global image
    counter with [GetNextGlobalImageCount] and writes the just-incremented
    counter into the frame descriptor; it serializes the snapshot, and when
    the result fits in [destSize] bytes it is copied out and the logger is
    [Reset]; otherwise the call returns [false] and the logger is left as it
    was.  The second component is the content written to the destination. *)
Definition PackAndReset (destSize : Z) (camera : string)
    (isSequenceImage : bool) (cameraSeqNum acquisitionSeqNum : Z)
    (s : SettingLogger) : bool * option Packed * SettingLogger :=
  let (_, s1) := GetNextGlobalImageCount s in
  let p := snapshot camera isSequenceImage cameraSeqNum acquisitionSeqNum
             (globalImageCount_ s1) s1 in
  if packed_size p <=? destSize then (true, Some p, Reset s1)
  else (false, None, s).

(** ** Calls on the logger, each one critical section *)

Inductive Op : Type :=
| OSetInteger (device key : string) (value : Z) (logEvent : bool)
| OGetInteger (device key : string)
| OSetFloat (device key : string) (value : float) (logEvent : bool)
| OGetFloat (device key : string)
| OSetString (device key value : string) (logEvent : bool)
| OGetString (device key : string)
| OFireOneShot (device key : string) (logEvent : bool)
| OMarkBusy (device : string) (logEvent : bool)
| OIsBusy (device : string) (queryNonDestructively : bool)
| OPackAndReset (destSize : Z) (camera : string) (isSequenceImage : bool)
    (cameraSeqNum acquisitionSeqNum : Z).

Inductive Result : Type :=
| RVoid
| RInteger (v : Z)
| RFloat (v : float)
| RString (v : string)
| RBool (b : bool)
| RPacked (ok : bool) (dest : option Packed).

Definition exec (s : SettingLogger) (op : Op) : Result * SettingLogger :=
  match op with
  | OSetInteger d k v l => (RVoid, SetInteger d k v l s)
  | OGetInteger d k => (RInteger (GetInteger s d k), s)
  | OSetFloat d k v l => (RVoid, SetFloat d k v l s)
  | OGetFloat d k => (RFloat (GetFloat s d k), s)
  | OSetString d k v l => (RVoid, SetString d k v l s)
  | OGetString d k => (RString (GetString s d k), s)
  | OFireOneShot d k l => (RVoid, FireOneShot d k l s)
  | OMarkBusy d l => (RVoid, MarkBusy d l s)
  | OIsBusy d nd => let (b, s') := IsBusy d nd s in (RBool b, s')
  | OPackAndReset n c q cs acs =>
      match PackAndReset n c q cs acs s with
      | (ok, p, s') => (RPacked ok p, s')
      end
  end.

(** A sequence of calls, in lock-acquisition order. *)
Fixpoint run (s : SettingLogger) (ops : list Op) : list Result * SettingLogger :=
  match ops with
  | [] => ([], s)
  | op :: rest =>
      let (r, s1) := exec s op in
      let (rs, s2) := run s1 rest in
      (r :: rs, s2)
  end.

(** The events delivered by the successful packs among [rs], in order. *)
Fixpoint delivered_events (rs : list Result) : list SettingEvent :=
  match rs with
  | [] => []
  | RPacked true (Some p) :: rest => pk_history p ++ delivered_events rest
  | _ :: rest => delivered_events rest
  end.

End Methods.
End Logger.

(** ** Auxiliary definitions for the statements *)

(** The key and value a [Set*]/[FireOneShot] call with [logEvent = true]
    records; [None] for every other call. *)
Definition logged_set (op : Logger.Op) : option (SettingKey * SettingValue) :=
  match op with
  | Logger.OSetInteger d k v true => Some (mkSettingKey d k, IntegerSettingValue v)
  | Logger.OSetFloat d k v true => Some (mkSettingKey d k, FloatSettingValue v)
  | Logger.OSetString d k v true => Some (mkSettingKey d k, StringSettingValue v)
  | Logger.OFireOneShot d k true => Some (mkSettingKey d k, OneShotSettingValue)
  | _ => None
  end.

(** Events numbered consecutively from [c]. *)
Fixpoint number_events (c : Z) (l : list (SettingKey * SettingValue))
  : list SettingEvent :=
  match l with
  | [] => []
  | (k, v) :: t => mkSettingEvent k v c :: number_events (c + 1) t
  end.

(** The keys and values recorded by the logging [Set*]/[FireOneShot]
    calls among [ops], in call order. *)
Fixpoint logged_sets (ops : list Logger.Op) : list (SettingKey * SettingValue) :=
  match ops with
  | [] => []
  | op :: rest =>
      match logged_set op with
      | Some kv => kv :: logged_sets rest
      | None => logged_sets rest
      end
  end.

Definition is_pack (op : Logger.Op) : bool :=
  match op with Logger.OPackAndReset _ _ _ _ _ => true | _ => false end.

(** Two logger states that differ at most in the live value table. *)
Definition same_but_values (s1 s2 : SettingLogger) : Prop :=
  counter_ s1 = counter_ s2 /\ counterAtLastReset_ s1 = counterAtLastReset_ s2 /\
  globalImageCount_ s1 = globalImageCount_ s2 /\
  startingValues_ s1 = startingValues_ s2 /\
  settingEvents_ s1 = settingEvents_ s2 /\ busyPoints_ s1 = busyPoints_ s2.

(** A [std::map] whose entries are in strictly increasing key order. *)
Definition key_sorted {K V : Type} (lt : K -> K -> bool) (m : list (K * V)) : Prop :=
  StronglySorted (fun a b => lt a b = true) (map fst m).

(** [uint64_t GetNextCount()] called [n] times in a row. *)
Fixpoint GetNextCounts (n : nat) (s : SettingLogger) : list Z * SettingLogger :=
  match n with
  | O => ([], s)
  | S n' =>
      let (c, s1) := GetNextCount s in
      let (cs, s2) := GetNextCounts n' s1 in
      (c :: cs, s2)
  end.

(** A logger state whose three maps are in strictly increasing key order. *)
Definition maps_sorted (s : SettingLogger) : Prop :=
  key_sorted SettingKey_lt (settingValues_ s) /\
  key_sorted SettingKey_lt (startingValues_ s) /\
  key_sorted string_lt (busyPoints_ s).

(** The size the serializer gives a snapshot, counted here as its number
    of starting values; used to exhibit a pack that a silent value pushes
    over a buffer limit. *)
Definition starting_size (p : Packed) : Z := Z.of_nat (List.length (pk_starting p)).

(** ** Threads sharing the logger under its mutex

    Every public method takes [Guard()] (a [unique_lock] on [mutex_]) on
    entry and releases it on exit.  A call is modelled as: acquire the
    mutex when it is free, run the method's body as a list of atomic
    micro-steps on the logger and a local register, release the mutex.
    Threads interleave their micro-steps under an arbitrary schedule. *)
Module Interleaving.

Definition Micro : Type := SettingLogger * Logger.Result -> SettingLogger * Logger.Result.

Definition run_micro (fs : list Micro) (st : SettingLogger * Logger.Result)
  : SettingLogger * Logger.Result :=
  fold_left (fun acc f => f acc) fs st.

(** A thread: the calls it has still to make and, while it holds the
    mutex, the call in progress, the index of its next micro-step and its
    local register. *)
Record Thread : Type := mkThread {
  th_todo : list Logger.Op;
  th_cur : option (Logger.Op * nat * Logger.Result)
}.

(** The shared logger, the holder of the mutex, the threads, and (as
    history) the calls in lock-acquisition order and the results in
    release order. *)
Record Sys : Type := mkSys {
  sys_logger : SettingLogger;
  sys_lock : option nat;
  sys_threads : nat -> Thread;
  sys_acquired : list Logger.Op;
  sys_released : list Logger.Result
}.

Definition update (ths : nat -> Thread) (t : nat) (th : Thread) : nat -> Thread :=
  fun j => if Nat.eqb j t then th else ths j.

Section Sched.
Variable body : Logger.Op -> list Micro.

(** One move of thread [t]: take the mutex for its next call if the mutex
    is free, or run the next micro-step of its current call, or release the
    mutex when the call is finished; an idle or waiting thread does not
    move. *)
Definition step (sys : Sys) (t : nat) : Sys :=
  let th := sys_threads sys t in
  match th_cur th with
  | None =>
      match th_todo th, sys_lock sys with
      | op :: rest, None =>
          {| sys_logger := sys_logger sys; sys_lock := Some t;
             sys_threads := update (sys_threads sys) t
                              (mkThread rest (Some (op, 0%nat, Logger.RVoid)));
             sys_acquired := sys_acquired sys ++ [op];
             sys_released := sys_released sys |}
      | _, _ => sys
      end
  | Some (op, n, reg) =>
      match nth_error (body op) n with
      | Some f =>
          let (lg', reg') := f (sys_logger sys, reg) in
          {| sys_logger := lg'; sys_lock := sys_lock sys;
             sys_threads := update (sys_threads sys) t
                              (mkThread (th_todo th) (Some (op, S n, reg')));
             sys_acquired := sys_acquired sys;
             sys_released := sys_released sys |}
      | None =>
          {| sys_logger := sys_logger sys; sys_lock := None;
             sys_threads := update (sys_threads sys) t (mkThread (th_todo th) None);
             sys_acquired := sys_acquired sys;
             sys_released := sys_released sys ++ [reg] |}
      end
  end.

Definition schedule (sys : Sys) (sched : list nat) : Sys := fold_left step sched sys.

Section Invariant.
Variables (packed_size : Packed -> Z) (BusyKeyName : string) (lg0 : SettingLogger).

(** Only the holder of the mutex has a call in progress; with the mutex
    free, the logger and the results are those of the serial run of the
    acquired calls; with the mutex held, the logger and register are those
    of the serial run of the earlier calls followed by the first [n]
    micro-steps of the current one. *)
Definition Inv (sys : Sys) : Prop :=
  (forall t, th_cur (sys_threads sys t) <> None -> sys_lock sys = Some t) /\
  (sys_lock sys = None ->
   sys_logger sys = snd (Logger.run packed_size BusyKeyName lg0 (sys_acquired sys)) /\
   sys_released sys = fst (Logger.run packed_size BusyKeyName lg0 (sys_acquired sys))) /\
  (forall t, sys_lock sys = Some t ->
   exists op n reg pre,
     sys_acquired sys = pre ++ [op] /\
     th_cur (sys_threads sys t) = Some (op, n, reg) /\
     (n <= List.length (body op))%nat /\
     sys_released sys = fst (Logger.run packed_size BusyKeyName lg0 pre) /\
     (sys_logger sys, reg) =
       run_micro (firstn n (body op))
         (snd (Logger.run packed_size BusyKeyName lg0 pre), Logger.RVoid)).
End Invariant.
End Sched.

(** Threads with their calls to make, none started, the mutex free. *)
Definition init (lg0 : SettingLogger) (todos : nat -> list Logger.Op) : Sys :=
  {| sys_logger := lg0; sys_lock := None;
     sys_threads := fun t => mkThread (todos t) None;
     sys_acquired := []; sys_released := [] |}.

Section FineBody.
Variables (packed_size : Packed -> Z) (BusyKeyName : string).

(** Modelled from the spec: a logging [Set*]/[FireOneShot] body in three
    micro-steps: store the value, take the order index with
    [GetNextCount], append the event. *)
Definition set_body (device key : string) (value : SettingValue) : list Micro :=
  [fun st => (set_settingValues
                (OrdMap.assign SettingKey_lt (mkSettingKey device key) value
                   (settingValues_ (fst st))) (fst st), snd st);
   fun st => let (c, s') := GetNextCount (fst st) in (s', Logger.RInteger c);
   fun st => (set_settingEvents
                (settingEvents_ (fst st) ++
                 [mkSettingEvent (mkSettingKey device key) value
                    (match snd st with Logger.RInteger c => c | _ => 0 end)])
                (fst st), Logger.RVoid)].

Definition atomic_body (op : Logger.Op) : list Micro :=
  [fun st => let (r, s') := Logger.exec packed_size BusyKeyName (fst st) op in (s', r)].

Definition fine_body (op : Logger.Op) : list Micro :=
  match op with
  | Logger.OSetInteger d k v true => set_body d k (IntegerSettingValue v)
  | Logger.OSetFloat d k v true => set_body d k (FloatSettingValue v)
  | Logger.OSetString d k v true => set_body d k (StringSettingValue v)
  | Logger.OFireOneShot d k true => set_body d k OneShotSettingValue
  | _ => atomic_body op
  end.
End FineBody.

(** Two threads: one setting two values, one packing a frame. *)
Definition demo_todos (t : nat) : list Logger.Op :=
  match t with
  | O => [Logger.OSetInteger "Cam1" "Gain" 5 true;
          Logger.OSetFloat "Cam1" "Exposure" 10.0 true]
  | 1%nat => [Logger.OPackAndReset 4096 "Cam1" false 0 0]
  | _ => []
  end.

Definition demo_schedule : list nat :=
  [0; 1; 0; 1; 0; 1; 0; 1; 0; 1; 0; 1; 0; 1; 0; 0; 0; 0; 0]%nat.
End Interleaving.

(** ** Sanity checks on concrete inputs *)

Example GetNextCount_post_increment :
  GetNextCount NewSettingLogger = (0, set_counter 1 NewSettingLogger).
Proof. reflexivity. Qed.

Example set_then_get :
  Logger.GetInteger (Logger.SetInteger "Cam1" "Gain" 5 true NewSettingLogger)
    "Cam1" "Gain" = 5.
Proof. reflexivity. Qed.

(** ** Pack-and-reset *)

Lemma snapshot_globalImageCount_irrelevant c q a b n m s :
  Logger.snapshot c q a b n (set_globalImageCount m s) = Logger.snapshot c q a b n s.
Proof. reflexivity. Qed.

Lemma globalImageCount_set m s : globalImageCount_ (set_globalImageCount m s) = m.
Proof. reflexivity. Qed.

(** C1: a pack whose destination is smaller than the serialized snapshot
    returns [false], writes nothing and leaves every field of the logger
    (start values, live table, events, busy points and all three counters)
    as it was. *)
Theorem PackAndReset_too_small_unchanged :
  forall packed_size destSize camera isSeq cameraSeqNum acqSeqNum s,
    destSize < packed_size
      (Logger.snapshot camera isSeq cameraSeqNum acqSeqNum (uint64_wrap (globalImageCount_ s + 1)) s) ->
    Logger.PackAndReset packed_size destSize camera isSeq cameraSeqNum acqSeqNum s
    = (false, None, s).
Proof.
  intros packed_size destSize camera isSeq csn asn s Hsmall.
  unfold Logger.PackAndReset, GetNextGlobalImageCount.
  rewrite snapshot_globalImageCount_irrelevant, globalImageCount_set.
  destruct (Z.leb_spec (packed_size (Logger.snapshot camera isSeq csn asn
                                      (uint64_wrap (globalImageCount_ s + 1)) s)) destSize).
  - lia.
  - reflexivity.
Qed.

Lemma PackAndReset_too_small_unchanged_witness :
  let s := Logger.SetInteger "Cam1" "Gain" 5 true NewSettingLogger in
  Logger.PackAndReset (fun _ => 100) 10 "Cam1" false 0 0 s = (false, None, s).
Proof.
  apply (PackAndReset_too_small_unchanged (fun _ => 100) 10 "Cam1" false 0 0).
  simpl. lia.
Defined.

Lemma PackAndReset_success_inv :
  forall packed_size destSize camera isSeq csn asn s p s',
    Logger.PackAndReset packed_size destSize camera isSeq csn asn s = (true, Some p, s') ->
    p = Logger.snapshot camera isSeq csn asn (uint64_wrap (globalImageCount_ s + 1)) s /\
    packed_size p <= destSize /\
    s' = Reset (set_globalImageCount (uint64_wrap (globalImageCount_ s + 1)) s).
Proof.
  intros packed_size destSize camera isSeq csn asn s p s' H.
  unfold Logger.PackAndReset, GetNextGlobalImageCount in H.
  rewrite snapshot_globalImageCount_irrelevant, globalImageCount_set in H.
  destruct (Z.leb_spec (packed_size (Logger.snapshot camera isSeq csn asn
                                      (uint64_wrap (globalImageCount_ s + 1)) s)) destSize);
    inversion H; subst; auto.
Qed.

Lemma PackAndReset_fits :
  forall packed_size destSize camera isSeq csn asn s,
    packed_size (Logger.snapshot camera isSeq csn asn (uint64_wrap (globalImageCount_ s + 1)) s) <= destSize ->
    Logger.PackAndReset packed_size destSize camera isSeq csn asn s =
    (true, Some (Logger.snapshot camera isSeq csn asn (uint64_wrap (globalImageCount_ s + 1)) s),
     Reset (set_globalImageCount (uint64_wrap (globalImageCount_ s + 1)) s)).
Proof.
  intros packed_size destSize camera isSeq csn asn s H.
  unfold Logger.PackAndReset, GetNextGlobalImageCount.
  rewrite snapshot_globalImageCount_irrelevant, globalImageCount_set.
  apply Z.leb_le in H. rewrite H. reflexivity.
Qed.

Lemma PackAndReset_cases :
  forall packed_size destSize camera isSeq csn asn s,
    Logger.PackAndReset packed_size destSize camera isSeq csn asn s = (false, None, s) \/
    Logger.PackAndReset packed_size destSize camera isSeq csn asn s =
    (true, Some (Logger.snapshot camera isSeq csn asn (uint64_wrap (globalImageCount_ s + 1)) s),
     Reset (set_globalImageCount (uint64_wrap (globalImageCount_ s + 1)) s)).
Proof.
  intros packed_size destSize camera isSeq csn asn s.
  destruct (Z.le_gt_cases
              (packed_size (Logger.snapshot camera isSeq csn asn (uint64_wrap (globalImageCount_ s + 1)) s))
              destSize) as [H | H].
  - right. apply PackAndReset_fits; exact H.
  - left. apply PackAndReset_too_small_unchanged; lia.
Qed.

(** C10: a successful pack leaves the live value table, the event counter
    and the busy-point table as they were. *)
Theorem PackAndReset_frame :
  forall packed_size destSize camera isSeq csn asn s p s',
    Logger.PackAndReset packed_size destSize camera isSeq csn asn s = (true, Some p, s') ->
    settingValues_ s' = settingValues_ s /\ counter_ s' = counter_ s /\
    busyPoints_ s' = busyPoints_ s.
Proof.
  intros packed_size destSize camera isSeq csn asn s p s' H.
  apply PackAndReset_success_inv in H as (_ & _ & ->).
  repeat split.
Qed.

Lemma PackAndReset_frame_witness :
  let s := Logger.MarkBusy "Busy" "Stage" true
             (Logger.SetInteger "Cam1" "Gain" 5 true NewSettingLogger) in
  let r := Logger.PackAndReset (fun _ => 0) 10 "Cam1" false 0 0 s in
  r = (true, Some (Logger.snapshot "Cam1" false 0 0 1 s), snd r) /\
  settingValues_ (snd r) = settingValues_ s /\ counter_ (snd r) = counter_ s /\
  busyPoints_ (snd r) = busyPoints_ s.
Proof.
  split.
  - reflexivity.
  - apply (PackAndReset_frame (fun _ => 0) 10 "Cam1" false 0 0 _
             (Logger.snapshot "Cam1" false 0 0 1
                (Logger.MarkBusy "Busy" "Stage" true
                   (Logger.SetInteger "Cam1" "Gain" 5 true NewSettingLogger)))).
    reflexivity.
Defined.

(** C4: right after a successful pack, [startingValues_] is the live table
    of the moment of the pack, [counterAtLastReset_] equals [counter_] and
    the event list is empty; a second successful pack with nothing in
    between serializes no events and those same starting values. *)
Theorem PackAndReset_resets :
  forall packed_size destSize camera isSeq csn asn s p s',
    Logger.PackAndReset packed_size destSize camera isSeq csn asn s = (true, Some p, s') ->
    startingValues_ s' = settingValues_ s /\
    counterAtLastReset_ s' = counter_ s' /\
    settingEvents_ s' = [] /\
    forall destSize2 camera2 isSeq2 csn2 asn2 p2 s'',
      Logger.PackAndReset packed_size destSize2 camera2 isSeq2 csn2 asn2 s' =
        (true, Some p2, s'') ->
      pk_history p2 = [] /\ pk_starting p2 = settingValues_ s /\
      startingValues_ s'' = settingValues_ s.
Proof.
  intros packed_size destSize camera isSeq csn asn s p s' H.
  apply PackAndReset_success_inv in H as (_ & _ & ->).
  split; [reflexivity | split; [reflexivity | split; [reflexivity |]]].
  intros destSize2 camera2 isSeq2 csn2 asn2 p2 s'' H2.
  apply PackAndReset_success_inv in H2 as (-> & _ & ->).
  repeat split.
Qed.

Lemma PackAndReset_resets_witness :
  let s := Logger.SetInteger "Cam1" "Gain" 5 true NewSettingLogger in
  let r := Logger.PackAndReset (fun _ => 0) 10 "Cam1" false 0 0 s in
  fst r = (true, Some (Logger.snapshot "Cam1" false 0 0 1 s)) /\
  startingValues_ (snd r) = settingValues_ s.
Proof.
  split.
  - reflexivity.
  - exact (proj1 (PackAndReset_resets (fun _ => 0) 10 "Cam1" false 0 0
            (Logger.SetInteger "Cam1" "Gain" 5 true NewSettingLogger)
            (Logger.snapshot "Cam1" false 0 0 1
               (Logger.SetInteger "Cam1" "Gain" 5 true NewSettingLogger))
            (snd (Logger.PackAndReset (fun _ => 0) 10 "Cam1" false 0 0
                    (Logger.SetInteger "Cam1" "Gain" 5 true NewSettingLogger)))
            eq_refl)).
Defined.

(** The logger after [SetInteger("Cam1","Gain",5)] and
    [SetFloat("Cam1","Exposure",10.0)] on a fresh logger. *)
Definition scenario_state : SettingLogger :=
  Logger.SetFloat "Cam1" "Exposure" 10.0 true
    (Logger.SetInteger "Cam1" "Gain" 5 true NewSettingLogger).

(** The packed snapshot of the scenario. *)
Definition scenario_packed : Packed :=
  {| pk_camera := mkCameraInfo "Cam1" false 0 0;
     pk_globalImageCount := 1;
     pk_busy := [];
     pk_starting := [];
     pk_history :=
       [mkSettingEvent (mkSettingKey "Cam1" "Gain") (IntegerSettingValue 5) 0;
        mkSettingEvent (mkSettingKey "Cam1" "Exposure") (FloatSettingValue 10.0) 1] |}.

(** C3: in the scenario, a pack into a buffer that holds the output
    succeeds and writes the frame descriptor ("Cam1", false, 0, 0) with
    global image count 1, an empty busy set, the empty starting values of
    the fresh logger and exactly the events (Cam1/Gain, 5, 0) and
    (Cam1/Exposure, 10.0, 1) in that order, after which [globalImageCount_]
    is 1; a pack into a buffer that is too small leaves [globalImageCount_]
    at 0.  In general [globalImageCount_] advances by one on each successful
    pack and not on a failed one. *)
Theorem scenario_pack :
  forall packed_size destSize,
    (packed_size scenario_packed <= destSize ->
     exists s', Logger.PackAndReset packed_size destSize "Cam1" false 0 0 scenario_state
                = (true, Some scenario_packed, s') /\ globalImageCount_ s' = 1) /\
    (destSize < packed_size scenario_packed ->
     Logger.PackAndReset packed_size destSize "Cam1" false 0 0 scenario_state
       = (false, None, scenario_state) /\ globalImageCount_ scenario_state = 0) /\
    (forall camera isSeq csn asn s ok out s',
       Logger.PackAndReset packed_size destSize camera isSeq csn asn s = (ok, out, s') ->
       globalImageCount_ s' =
         if ok then uint64_wrap (globalImageCount_ s + 1) else globalImageCount_ s).
Proof.
  intros packed_size destSize.
  split; [| split].
  - intros H. eexists. split.
    + apply PackAndReset_fits. exact H.
    + reflexivity.
  - intros H. split.
    + apply PackAndReset_too_small_unchanged. exact H.
    + reflexivity.
  - intros camera isSeq csn asn s ok out s' H.
    destruct (PackAndReset_cases packed_size destSize camera isSeq csn asn s) as [E | E];
      rewrite E in H; inversion H; subst; reflexivity.
Qed.

Lemma scenario_pack_witness :
  exists s', Logger.PackAndReset (fun _ => 64) 4096 "Cam1" false 0 0 scenario_state
             = (true, Some scenario_packed, s') /\ globalImageCount_ s' = 1.
Proof.
  apply (proj1 (scenario_pack (fun _ => 64) 4096)).
  simpl. lia.
Defined.

(** ** Queries *)

(** C5: for a (device, key) pair absent from the live table, the three
    queries return 0, 0.0 and the empty string, and the logger is left as
    it was. *)
Theorem get_missing_key_default :
  forall packed_size BusyKeyName s device key,
    Logger.lookup_value s device key = None ->
    Logger.exec packed_size BusyKeyName s (Logger.OGetInteger device key) =
      (Logger.RInteger 0, s) /\
    Logger.exec packed_size BusyKeyName s (Logger.OGetFloat device key) =
      (Logger.RFloat 0.0, s) /\
    Logger.exec packed_size BusyKeyName s (Logger.OGetString device key) =
      (Logger.RString EmptyString, s).
Proof.
  intros packed_size BusyKeyName s device key H.
  simpl. unfold Logger.GetInteger, Logger.GetFloat, Logger.GetString.
  rewrite H. auto.
Qed.

Lemma get_missing_key_default_witness :
  let s := Logger.SetInteger "Cam1" "Gain" 5 true NewSettingLogger in
  Logger.exec (fun _ => 0) "Busy" s (Logger.OGetInteger "Cam1" "Exposure") =
    (Logger.RInteger 0, s).
Proof.
  apply (get_missing_key_default (fun _ => 0) "Busy"
           (Logger.SetInteger "Cam1" "Gain" 5 true NewSettingLogger)
           "Cam1" "Exposure").
  reflexivity.
Defined.

(** C6: each typed accessor returns the payload of its own variant and its
    default on every other variant; on a one-shot value all three return
    their defaults. *)
Theorem accessor_mismatch_default :
  forall v : SettingValue,
    ((exists x, v = IntegerSettingValue x /\ SettingValue.GetInteger v = x) \/
     SettingValue.GetInteger v = 0) /\
    ((exists x, v = FloatSettingValue x /\ SettingValue.GetFloat v = x) \/
     SettingValue.GetFloat v = 0.0%float) /\
    ((exists x, v = StringSettingValue x /\ SettingValue.GetString v = x) \/
     SettingValue.GetString v = EmptyString) /\
    (match v with
     | IntegerSettingValue _ =>
         SettingValue.GetFloat v = 0.0%float /\ SettingValue.GetString v = EmptyString
     | FloatSettingValue _ =>
         SettingValue.GetInteger v = 0 /\ SettingValue.GetString v = EmptyString
     | StringSettingValue _ =>
         SettingValue.GetInteger v = 0 /\ SettingValue.GetFloat v = 0.0%float
     | OneShotSettingValue =>
         SettingValue.GetInteger v = 0 /\ SettingValue.GetFloat v = 0.0%float /\
         SettingValue.GetString v = EmptyString
     end).
Proof.
  intros [x | x | x |]; simpl;
    repeat split; eauto 6.
Qed.

(** ** Busy points *)

Lemma string_lt_irrefl : forall a, string_lt a a = false.
Proof.
  intros a. unfold string_lt.
  assert (E : String.compare a a = Eq).
  { induction a as [| c a IH]; simpl; [reflexivity |].
    unfold Ascii.compare. rewrite N.compare_refl. exact IH. }
  rewrite E. reflexivity.
Qed.

Lemma find_assign_same {K V : Type} (lt : K -> K -> bool) (k : K) (v : V) m :
  lt k k = false -> OrdMap.find lt k (OrdMap.assign lt k v m) = Some v.
Proof.
  intros Hirr. induction m as [| [k' v'] t IH]; simpl.
  - rewrite Hirr. reflexivity.
  - destruct (lt k k') eqn:E1; simpl.
    + rewrite Hirr. reflexivity.
    + destruct (lt k' k) eqn:E2; simpl.
      * rewrite E1, E2. exact IH.
      * rewrite Hirr. reflexivity.
Qed.

Lemma find_In {K V : Type} (lt : K -> K -> bool) (k : K) (v : V) m :
  OrdMap.find lt k m = Some v -> exists k', In (k', v) m.
Proof.
  induction m as [| [k' v'] t IH]; simpl; intros H.
  - discriminate H.
  - destruct (lt k k'); [discriminate H |].
    destruct (lt k' k).
    + destruct (IH H) as [k'' Hin]. eauto.
    + inversion H; subst. eauto.
Qed.

Lemma assign_Forall {K V : Type} (lt : K -> K -> bool) (P : K * V -> Prop) k v m :
  Forall P m -> P (k, v) -> Forall P (OrdMap.assign lt k v m).
Proof.
  intros Hm Hkv. induction Hm as [| [k' v'] t Hh Ht IH]; simpl.
  - constructor; auto.
  - destruct (lt k k').
    + constructor; [exact Hkv | constructor; auto].
    + destruct (lt k' k); constructor; auto.
Qed.

Definition busy_ok (s : SettingLogger) : Prop :=
  Forall (fun e => 0 <= snd e < 2 ^ 32) (busyPoints_ s).

Lemma busy_count_bounds s d : busy_ok s -> 0 <= Logger.busy_count s d < 2 ^ 32.
Proof.
  unfold busy_ok, Logger.busy_count. intros H.
  destruct (OrdMap.find string_lt d (busyPoints_ s)) as [c |] eqn:E.
  - apply find_In in E as [k' Hin].
    rewrite Forall_forall in H. apply (H _ Hin).
  - lia.
Qed.

Lemma SetValue_busyPoints d k v l s :
  busyPoints_ (Logger.SetValue d k v l s) = busyPoints_ s.
Proof. destruct l; reflexivity. Qed.

Lemma exec_busy_ok packed_size BusyKeyName s op :
  busy_ok s -> busy_ok (snd (Logger.exec packed_size BusyKeyName s op)).
Proof.
  intros H.
  destruct op; simpl; unfold busy_ok in *;
    unfold Logger.SetInteger, Logger.SetFloat, Logger.SetString, Logger.FireOneShot;
    try (rewrite SetValue_busyPoints; exact H); try exact H.
  - (* MarkBusy *)
    assert (Hb : Forall (fun e : string * Z => 0 <= snd e < 2 ^ 32)
                   (OrdMap.assign string_lt device
                      (unsigned_wrap (Logger.busy_count s device + 1)) (busyPoints_ s))).
    { apply assign_Forall; [exact H |]. simpl. unfold unsigned_wrap.
      apply Z.mod_pos_bound. lia. }
    unfold Logger.MarkBusy. destruct logEvent; exact Hb.
  - (* IsBusy *)
    unfold Logger.IsBusy.
    pose proof (busy_count_bounds s device H) as Hc.
    destruct (Logger.busy_count s device =? 0) eqn:E; [exact H |].
    destruct queryNonDestructively; [exact H |].
    simpl. apply assign_Forall; [exact H |]. simpl.
    apply Z.eqb_neq in E. lia.
  - (* PackAndReset *)
    destruct (PackAndReset_cases packed_size destSize camera isSequenceImage
                cameraSeqNum acquisitionSeqNum s) as [E | E];
      rewrite E; exact H.
Qed.

Lemma run_busy_ok packed_size BusyKeyName ops : forall s,
  busy_ok s -> busy_ok (snd (Logger.run packed_size BusyKeyName s ops)).
Proof.
  induction ops as [| op ops IH]; intros s H; simpl.
  - exact H.
  - pose proof (exec_busy_ok packed_size BusyKeyName s op H) as H1.
    destruct (Logger.exec packed_size BusyKeyName s op) as [r s1].
    specialize (IH s1 H1).
    destruct (Logger.run packed_size BusyKeyName s1 ops) as [rs s2].
    exact IH.
Qed.

Lemma MarkBusy_busy_count BusyKeyName d l s :
  Logger.busy_count (Logger.MarkBusy BusyKeyName d l s) d =
  unsigned_wrap (Logger.busy_count s d + 1).
Proof.
  unfold Logger.MarkBusy.
  destruct l; unfold Logger.busy_count at 1; simpl;
    rewrite find_assign_same by apply string_lt_irrefl; reflexivity.
Qed.

Lemma IsBusy_destructive_count d s :
  Logger.busy_count (snd (Logger.IsBusy d false s)) d =
  if Logger.busy_count s d =? 0 then 0 else Logger.busy_count s d - 1.
Proof.
  unfold Logger.IsBusy.
  destruct (Logger.busy_count s d =? 0) eqn:E.
  - apply Z.eqb_eq in E. exact E.
  - unfold Logger.busy_count at 1; simpl.
    rewrite find_assign_same by apply string_lt_irrefl. reflexivity.
Qed.

(** C7: on every reachable logger the busy counts are non-negative;
    [IsBusy] answers whether the count is nonzero; the destructive query
    takes one from a nonzero count and leaves a zero count at zero; the
    non-destructive query changes nothing.  So from a zero count, after one
    [MarkBusy], a first destructive query answers [true] and a second
    [false], while any number of non-destructive queries all answer
    [true]. *)
Theorem IsBusy_semantics :
  forall packed_size BusyKeyName,
    (forall ops d,
       0 <= Logger.busy_count
              (snd (Logger.run packed_size BusyKeyName NewSettingLogger ops)) d) /\
    (forall s d nd,
       fst (Logger.IsBusy d nd s) = negb (Logger.busy_count s d =? 0)) /\
    (forall s d,
       Logger.busy_count (snd (Logger.IsBusy d false s)) d =
       if Logger.busy_count s d =? 0 then 0 else Logger.busy_count s d - 1) /\
    (forall s d, snd (Logger.IsBusy d true s) = s) /\
    (forall s d logEvent,
       Logger.busy_count s d = 0 ->
       let s1 := Logger.MarkBusy BusyKeyName d logEvent s in
       fst (Logger.IsBusy d false s1) = true /\
       fst (Logger.IsBusy d false (snd (Logger.IsBusy d false s1))) = false /\
       forall n,
         fst (Logger.IsBusy d true
                (Nat.iter n (fun t => snd (Logger.IsBusy d true t)) s1)) = true).
Proof.
  intros packed_size BusyKeyName.
  assert (Hnd : forall s d, snd (Logger.IsBusy d true s) = s).
  { intros s d. unfold Logger.IsBusy.
    destruct (Logger.busy_count s d =? 0); reflexivity. }
  assert (Hres : forall s d nd,
             fst (Logger.IsBusy d nd s) = negb (Logger.busy_count s d =? 0)).
  { intros s d nd. unfold Logger.IsBusy.
    destruct (Logger.busy_count s d =? 0); [reflexivity |].
    destruct nd; reflexivity. }
  split; [| split; [exact Hres | split; [intros s d; apply IsBusy_destructive_count |
                                           split; [exact Hnd |]]]].
  - intros ops d.
    apply (busy_count_bounds _ d).
    apply run_busy_ok. constructor.
  - intros s d logEvent H0 s1.
    assert (H1 : Logger.busy_count s1 d = 1).
    { unfold s1. rewrite MarkBusy_busy_count, H0. reflexivity. }
    split; [| split].
    + rewrite Hres, H1. reflexivity.
    + rewrite Hres, IsBusy_destructive_count, H1. reflexivity.
    + intros n.
      assert (Hit : Nat.iter n (fun t => snd (Logger.IsBusy d true t)) s1 = s1).
      { induction n as [| n IH]; simpl; [reflexivity |]. rewrite IH. apply Hnd. }
      rewrite Hit, Hres, H1. reflexivity.
Qed.

Lemma IsBusy_semantics_witness :
  let s1 := Logger.MarkBusy "Busy" "Stage" true NewSettingLogger in
  fst (Logger.IsBusy "Stage" false s1) = true /\
  fst (Logger.IsBusy "Stage" false (snd (Logger.IsBusy "Stage" false s1))) = false /\
  (forall n, fst (Logger.IsBusy "Stage" true
                (Nat.iter n (fun t => snd (Logger.IsBusy "Stage" true t)) s1)) = true).
Proof.
  apply (proj2 (proj2 (proj2 (proj2 (IsBusy_semantics (fun _ => 0) "Busy"))))
           NewSettingLogger "Stage"%string true).
  reflexivity.
Defined.

(** ** Silent mutations *)

Ltac destruct_ifs :=
  repeat match goal with
         | |- context [if ?c then _ else _] => destruct c
         end.

Lemma snapshot_same_but_values c q a b n s1 s2 :
  same_but_values s1 s2 -> Logger.snapshot c q a b n s1 = Logger.snapshot c q a b n s2.
Proof.
  intros (_ & _ & _ & H4 & H5 & H6).
  unfold Logger.snapshot. rewrite H4, H5, H6. reflexivity.
Qed.

Lemma PackAndReset_same_but_values packed_size n c q a b s1 s2 :
  same_but_values s1 s2 ->
  fst (Logger.PackAndReset packed_size n c q a b s1) =
  fst (Logger.PackAndReset packed_size n c q a b s2).
Proof.
  intros H.
  pose proof (snapshot_same_but_values c q a b (uint64_wrap (globalImageCount_ s1 + 1)) s1 s2 H) as Hs.
  destruct H as (_ & _ & H3 & _).
  unfold Logger.PackAndReset, GetNextGlobalImageCount.
  rewrite !snapshot_globalImageCount_irrelevant, !globalImageCount_set, <- H3, Hs.
  destruct (packed_size (Logger.snapshot c q a b (uint64_wrap (globalImageCount_ s1 + 1)) s2) <=? n);
    reflexivity.
Qed.

Lemma exec_same_but_values packed_size BusyKeyName op s1 s2 :
  is_pack op = false -> same_but_values s1 s2 ->
  same_but_values (snd (Logger.exec packed_size BusyKeyName s1 op))
                  (snd (Logger.exec packed_size BusyKeyName s2 op)).
Proof.
  intros Hop (H1 & H2 & H3 & H4 & H5 & H6).
  destruct s1, s2; simpl in *; subst.
  destruct op; simpl in Hop; try discriminate Hop; simpl;
    unfold Logger.SetInteger, Logger.SetFloat, Logger.SetString, Logger.FireOneShot,
      Logger.SetValue, Logger.MarkBusy, Logger.IsBusy, Logger.busy_count;
    simpl; destruct_ifs; repeat split.
Qed.

Lemma run_same_but_values packed_size BusyKeyName ops : forall s1 s2,
  Forall (fun op => is_pack op = false) ops -> same_but_values s1 s2 ->
  same_but_values (snd (Logger.run packed_size BusyKeyName s1 ops))
                  (snd (Logger.run packed_size BusyKeyName s2 ops)).
Proof.
  induction ops as [| op ops IH]; intros s1 s2 Hops H; simpl.
  - exact H.
  - inversion Hops as [| ? ? Hop Hrest]; subst.
    pose proof (exec_same_but_values packed_size BusyKeyName op s1 s2 Hop H) as H1.
    destruct (Logger.exec packed_size BusyKeyName s1 op) as [r1 t1].
    destruct (Logger.exec packed_size BusyKeyName s2 op) as [r2 t2].
    specialize (IH t1 t2 Hrest H1).
    destruct (Logger.run packed_size BusyKeyName t1 ops).
    destruct (Logger.run packed_size BusyKeyName t2 ops).
    exact IH.
Qed.

Lemma delivered_events_cons r rs :
  Logger.delivered_events (r :: rs) =
  Logger.delivered_events [r] ++ Logger.delivered_events rs.
Proof.
  destruct r as [| | | | | [|] [p|]]; simpl; try reflexivity.
  rewrite app_nil_r. reflexivity.
Qed.

Lemma IsBusy_frame d nd s :
  settingEvents_ (snd (Logger.IsBusy d nd s)) = settingEvents_ s /\
  counter_ (snd (Logger.IsBusy d nd s)) = counter_ s.
Proof. unfold Logger.IsBusy. destruct_ifs; split; reflexivity. Qed.

Ltac trail_solve H :=
  first [ exists []; rewrite ?app_nil_r;
          split; [reflexivity | split; [reflexivity | try rewrite H; reflexivity]]
        | eexists; split; [reflexivity | split; [rewrite H; reflexivity | rewrite H; reflexivity]] ].

(** Two loggers with the same counter record the same events on the same
    call: whatever each hands over and keeps pending grows by the same
    events, and the counters stay equal. *)
Lemma exec_trail packed_size BusyKeyName op s1 s2 :
  counter_ s1 = counter_ s2 ->
  exists X,
    Logger.delivered_events [fst (Logger.exec packed_size BusyKeyName s1 op)] ++
      settingEvents_ (snd (Logger.exec packed_size BusyKeyName s1 op)) =
      settingEvents_ s1 ++ X /\
    Logger.delivered_events [fst (Logger.exec packed_size BusyKeyName s2 op)] ++
      settingEvents_ (snd (Logger.exec packed_size BusyKeyName s2 op)) =
      settingEvents_ s2 ++ X /\
    counter_ (snd (Logger.exec packed_size BusyKeyName s1 op)) =
      counter_ (snd (Logger.exec packed_size BusyKeyName s2 op)).
Proof.
  intros H.
  destruct op; cbn [Logger.exec];
    unfold Logger.SetInteger, Logger.SetFloat, Logger.SetString, Logger.FireOneShot,
      Logger.SetValue, Logger.MarkBusy;
    try destruct logEvent; simpl; try (trail_solve H).
  - destruct (IsBusy_frame device queryNonDestructively s1) as [E1 C1].
    destruct (IsBusy_frame device queryNonDestructively s2) as [E2 C2].
    destruct (Logger.IsBusy device queryNonDestructively s1) as [b1 t1].
    destruct (Logger.IsBusy device queryNonDestructively s2) as [b2 t2].
    simpl in *. rewrite E1, E2, C1, C2. exists []. rewrite !app_nil_r. auto.
  - destruct (PackAndReset_cases packed_size destSize camera isSequenceImage
                cameraSeqNum acquisitionSeqNum s1) as [E1 | E1];
    destruct (PackAndReset_cases packed_size destSize camera isSequenceImage
                cameraSeqNum acquisitionSeqNum s2) as [E2 | E2];
      rewrite E1, E2; simpl; exists []; rewrite !app_nil_r; auto.
Qed.

Lemma run_trail packed_size BusyKeyName ops : forall s1 s2 D1 D2,
  D1 ++ settingEvents_ s1 = D2 ++ settingEvents_ s2 -> counter_ s1 = counter_ s2 ->
  D1 ++ Logger.delivered_events (fst (Logger.run packed_size BusyKeyName s1 ops)) ++
    settingEvents_ (snd (Logger.run packed_size BusyKeyName s1 ops)) =
  D2 ++ Logger.delivered_events (fst (Logger.run packed_size BusyKeyName s2 ops)) ++
    settingEvents_ (snd (Logger.run packed_size BusyKeyName s2 ops)).
Proof.
  induction ops as [| op ops IH]; intros s1 s2 D1 D2 HD Hc; simpl.
  - exact HD.
  - destruct (exec_trail packed_size BusyKeyName op s1 s2 Hc) as (X & E1 & E2 & Ec).
    destruct (Logger.exec packed_size BusyKeyName s1 op) as [r1 t1].
    destruct (Logger.exec packed_size BusyKeyName s2 op) as [r2 t2].
    cbn [fst snd] in E1, E2, Ec.
    specialize (IH t1 t2 (D1 ++ Logger.delivered_events [r1])
                  (D2 ++ Logger.delivered_events [r2])).
    destruct (Logger.run packed_size BusyKeyName t1 ops) as [rs1 u1].
    destruct (Logger.run packed_size BusyKeyName t2 ops) as [rs2 u2].
    cbn [fst snd] in IH |- *.
    rewrite (delivered_events_cons r1), (delivered_events_cons r2), <- !app_assoc.
    rewrite <- !app_assoc in IH. apply IH; [| exact Ec].
    rewrite E1, E2, !app_assoc, HD. reflexivity.
Qed.

(** C8 (counterexample): a silent [SetValue] enters [startingValues_] at
    the next successful pack, so a later pack into a borderline buffer can
    fail with it and succeed without it: here the third call delivers no
    event after the silent call but delivers (X/Y, 1, 0) without it. *)
Lemma silent_set_later_pack_differs :
  let ops := [Logger.OPackAndReset 100 "Cam1" false 0 0;
              Logger.OSetInteger "X" "Y" 1 true;
              Logger.OPackAndReset 0 "Cam1" false 1 1] in
  last (fst (Logger.run starting_size "Busy"
               (Logger.SetValue "D" "K" (IntegerSettingValue 7) false NewSettingLogger)
               ops)) Logger.RVoid = Logger.RPacked false None /\
  Logger.delivered_events
    [last (fst (Logger.run starting_size "Busy" NewSettingLogger ops)) Logger.RVoid] =
    [mkSettingEvent (mkSettingKey "X" "Y") (IntegerSettingValue 1) 0].
Proof. split; vm_compute; reflexivity. Qed.

(** C8 (amended): a [Set*]/[FireOneShot] call with [logEvent = false]
    stores the same live table as its logging version but leaves the event
    list (and the counter) as it was; after any further calls other than
    packs, the event list and the outcome and contents of the next pack are
    exactly those of the run without the silent call; and over any further
    calls whatsoever, the whole audit trail (the events delivered by all
    successful packs followed by those still pending) is the same as
    without the silent call.  [SetInteger], [SetFloat], [SetString] and
    [FireOneShot] are [SetValue] at their variant. *)
Theorem silent_set_not_logged :
  forall packed_size BusyKeyName s device key value ops,
    Forall (fun op => is_pack op = false) ops ->
    settingValues_ (Logger.SetValue device key value false s) =
      settingValues_ (Logger.SetValue device key value true s) /\
    settingEvents_ (Logger.SetValue device key value false s) = settingEvents_ s /\
    settingEvents_
      (snd (Logger.run packed_size BusyKeyName
              (Logger.SetValue device key value false s) ops)) =
      settingEvents_ (snd (Logger.run packed_size BusyKeyName s ops)) /\
    (forall destSize camera isSeq csn asn,
       fst (Logger.PackAndReset packed_size destSize camera isSeq csn asn
              (snd (Logger.run packed_size BusyKeyName
                      (Logger.SetValue device key value false s) ops))) =
       fst (Logger.PackAndReset packed_size destSize camera isSeq csn asn
              (snd (Logger.run packed_size BusyKeyName s ops)))) /\
    (forall ops',
       Logger.delivered_events
         (fst (Logger.run packed_size BusyKeyName
                 (Logger.SetValue device key value false s) ops')) ++
       settingEvents_ (snd (Logger.run packed_size BusyKeyName
                              (Logger.SetValue device key value false s) ops')) =
       Logger.delivered_events (fst (Logger.run packed_size BusyKeyName s ops')) ++
       settingEvents_ (snd (Logger.run packed_size BusyKeyName s ops'))).
Proof.
  intros packed_size BusyKeyName s device key value ops Hops.
  assert (H0 : same_but_values (Logger.SetValue device key value false s) s)
    by (repeat split).
  pose proof (run_same_but_values packed_size BusyKeyName ops _ _ Hops H0) as H.
  split; [reflexivity | split; [reflexivity | split; [| split]]].
  - apply H.
  - intros. apply PackAndReset_same_but_values. exact H.
  - intros ops'.
    destruct H0 as (Hc & _ & _ & _ & He & _).
    apply (run_trail packed_size BusyKeyName ops' _ _ [] []); simpl.
    + exact He.
    + exact Hc.
Qed.

Lemma silent_set_not_logged_witness :
  let ops := [Logger.OSetInteger "Cam1" "Gain" 5 true; Logger.OMarkBusy "Stage" true] in
  settingEvents_
    (snd (Logger.run (fun _ => 0) "Busy"
            (Logger.SetValue "Cam1" "Exposure" (FloatSettingValue 10.0) false
               NewSettingLogger) ops)) =
  settingEvents_ (snd (Logger.run (fun _ => 0) "Busy" NewSettingLogger ops)).
Proof.
  apply (silent_set_not_logged (fun _ => 0) "Busy" NewSettingLogger "Cam1" "Exposure"
           (FloatSettingValue 10.0)
           [Logger.OSetInteger "Cam1" "Gain" 5 true; Logger.OMarkBusy "Stage" true]).
  repeat constructor.
Defined.

(** ** Order indices *)

Lemma uint64_wrap_small c : 0 <= c -> c + 1 < 2 ^ 64 -> uint64_wrap (c + 1) = c + 1.
Proof. intros. unfold uint64_wrap. apply Z.mod_small. lia. Qed.

(** One call appends at most one event, numbered with the current counter,
    and a successful pack hands over the whole event list. *)
Lemma exec_history packed_size BusyKeyName s op :
  0 <= counter_ s -> counter_ s + 1 < 2 ^ 64 ->
  let (r, s1) := Logger.exec packed_size BusyKeyName s op in
  (Logger.delivered_events [r] ++ settingEvents_ s1 = settingEvents_ s /\
   counter_ s1 = counter_ s) \/
  (exists e, Logger.delivered_events [r] ++ settingEvents_ s1 = settingEvents_ s ++ [e] /\
             ev_count e = counter_ s /\ counter_ s1 = counter_ s + 1).
Proof.
  intros H0 H1.
  pose proof (uint64_wrap_small _ H0 H1) as Hw.
  destruct op; simpl;
    unfold Logger.SetInteger, Logger.SetFloat, Logger.SetString, Logger.FireOneShot,
      Logger.SetValue, Logger.MarkBusy;
    try destruct logEvent; simpl;
    try (right; eexists; split; [reflexivity | split; [reflexivity | exact Hw]]);
    try (left; split; reflexivity).
  - unfold Logger.IsBusy. destruct_ifs; left; split; reflexivity.
  - destruct (PackAndReset_cases packed_size destSize camera isSequenceImage
                cameraSeqNum acquisitionSeqNum s) as [E | E];
      rewrite E; left; simpl; rewrite ?app_nil_r; split; reflexivity.
Qed.

Lemma StronglySorted_app_lt (l1 l2 : list Z) :
  StronglySorted Z.lt l1 -> StronglySorted Z.lt l2 ->
  (forall x y, In x l1 -> In y l2 -> x < y) ->
  StronglySorted Z.lt (l1 ++ l2).
Proof.
  induction 1 as [| a l1 Hs IH Hf]; intros H2 Hlt; simpl.
  - exact H2.
  - constructor.
    + apply IH; [exact H2 |]. intros x y Hx Hy. apply Hlt; simpl; auto.
    + apply Forall_app. split; [exact Hf |].
      apply Forall_forall. intros y Hy. apply Hlt; simpl; auto.
Qed.

Lemma StronglySorted_lt_NoDup (l : list Z) : StronglySorted Z.lt l -> NoDup l.
Proof.
  induction 1 as [| a l Hs IH Hf]; constructor; [| exact IH].
  intros Hin. rewrite Forall_forall in Hf. specialize (Hf a Hin). lia.
Qed.

(** Over any run, the events handed over by successful packs followed by
    the events still pending are the events pending at the start followed
    by the newly recorded ones, whose indices are strictly increasing and
    lie between the counter values at the start and at the end. *)
Lemma run_history packed_size BusyKeyName ops : forall s,
  0 <= counter_ s -> counter_ s + Z.of_nat (List.length ops) < 2 ^ 64 ->
  exists new,
    Logger.delivered_events (fst (Logger.run packed_size BusyKeyName s ops)) ++
      settingEvents_ (snd (Logger.run packed_size BusyKeyName s ops)) =
    settingEvents_ s ++ new /\
    StronglySorted Z.lt (map ev_count new) /\
    Forall (fun e => counter_ s <= ev_count e <
                     counter_ (snd (Logger.run packed_size BusyKeyName s ops))) new /\
    counter_ s <= counter_ (snd (Logger.run packed_size BusyKeyName s ops)).
Proof.
  induction ops as [| op ops IH]; intros s H0 Hlen; simpl.
  - exists []. rewrite app_nil_r. repeat split; constructor || lia.
  - cbn [List.length] in Hlen. rewrite Nat2Z.inj_succ in Hlen.
    pose proof (exec_history packed_size BusyKeyName s op H0 ltac:(lia)) as Hstep.
    destruct (Logger.exec packed_size BusyKeyName s op) as [r s1].
    assert (Hc1 : counter_ s <= counter_ s1 <= counter_ s + 1)
      by (destruct Hstep as [[_ E] | [e [_ [_ E]]]]; lia).
    destruct (IH s1 ltac:(lia) ltac:(lia)) as (new2 & Heq2 & Hs2 & Hf2 & Hc2).
    destruct (Logger.run packed_size BusyKeyName s1 ops) as [rs s2].
    cbn [fst snd] in *.
    rewrite delivered_events_cons, <- app_assoc, Heq2, app_assoc.
    destruct Hstep as [[E1 Ec] | [e [E1 [Ee Ec]]]]; rewrite E1.
    + exists new2. repeat split; [exact Hs2 | | lia].
      eapply Forall_impl; [| exact Hf2]. simpl. intros x Hx. lia.
    + exists (e :: new2). rewrite <- app_assoc. repeat split.
      * simpl. constructor; [exact Hs2 |].
        apply Forall_map. eapply Forall_impl; [| exact Hf2]. simpl. intros x Hx. lia.
      * constructor; [lia |].
        eapply Forall_impl; [| exact Hf2]. simpl. intros x Hx. lia.
      * lia.
Qed.

Lemma exec_logged_set packed_size BusyKeyName s op k v :
  logged_set op = Some (k, v) -> 0 <= counter_ s -> counter_ s + 1 < 2 ^ 64 ->
  settingEvents_ (snd (Logger.exec packed_size BusyKeyName s op)) =
    settingEvents_ s ++ [mkSettingEvent k v (counter_ s)] /\
  counter_ (snd (Logger.exec packed_size BusyKeyName s op)) = counter_ s + 1.
Proof.
  intros Hop H0 H1.
  pose proof (uint64_wrap_small _ H0 H1) as Hw.
  destruct op; simpl in Hop; try discriminate Hop;
    destruct logEvent; try discriminate Hop; inversion Hop; subst; simpl;
    split; [reflexivity | exact Hw | reflexivity | exact Hw
           | reflexivity | exact Hw | reflexivity | exact Hw].
Qed.

Lemma run_logged_sets packed_size BusyKeyName ops : forall s,
  Forall (fun op => logged_set op <> None) ops ->
  0 <= counter_ s -> counter_ s + Z.of_nat (List.length ops) < 2 ^ 64 ->
  settingEvents_ (snd (Logger.run packed_size BusyKeyName s ops)) =
    settingEvents_ s ++ number_events (counter_ s) (logged_sets ops) /\
  counter_ (snd (Logger.run packed_size BusyKeyName s ops)) =
    counter_ s + Z.of_nat (List.length ops).
Proof.
  induction ops as [| op ops IH]; intros s Hops H0 Hlen; simpl.
  - rewrite app_nil_r. split; [reflexivity | lia].
  - cbn [List.length] in Hlen. rewrite Nat2Z.inj_succ in Hlen.
    inversion Hops as [| ? ? Hop Hrest]; subst.
    destruct (logged_set op) as [[k v] |] eqn:Hk; [| contradiction].
    destruct (exec_logged_set packed_size BusyKeyName s op k v Hk H0 ltac:(lia))
      as [He Hc].
    destruct (Logger.exec packed_size BusyKeyName s op) as [r s1].
    simpl in He, Hc.
    destruct (IH s1 Hrest ltac:(lia) ltac:(lia)) as [He2 Hc2].
    destruct (Logger.run packed_size BusyKeyName s1 ops) as [rs s2].
    simpl in *. rewrite He2, He, Hc, <- app_assoc. split; [reflexivity | lia].
Qed.

Lemma number_events_counts c kvs :
  map ev_count (number_events c kvs) =
  map (fun i => c + Z.of_nat i) (seq 0 (List.length kvs)) /\
  map (fun e => (ev_key e, ev_value e)) (number_events c kvs) = kvs.
Proof.
  revert c. induction kvs as [| [k v] t IH]; intros c; simpl; [split; reflexivity |].
  destruct (IH (c + 1)) as [H1 H2]. rewrite H1, H2. split; [| reflexivity].
  f_equal; [lia |].
  rewrite <- seq_shift, map_map. apply map_ext. intros i. lia.
Qed.

Lemma logged_sets_length ops :
  Forall (fun op => logged_set op <> None) ops ->
  List.length (logged_sets ops) = List.length ops.
Proof.
  induction 1 as [| op ops Hop _ IH]; simpl; [reflexivity |].
  destruct (logged_set op); [simpl; rewrite IH; reflexivity | contradiction].
Qed.

Lemma seq_counts_sorted c n :
  StronglySorted Z.lt (map (fun i => c + Z.of_nat i) (seq 0 n)).
Proof.
  revert c. induction n as [| n IH]; intros c; simpl; constructor.
  - rewrite <- seq_shift, map_map.
    replace (map (fun x => c + Z.of_nat (S x)) (seq 0 n))
      with (map (fun i => (c + 1) + Z.of_nat i) (seq 0 n))
      by (apply map_ext; intros; lia).
    apply IH.
  - rewrite <- seq_shift, map_map. apply Forall_map, Forall_forall.
    intros i _. lia.
Qed.

(** C2: starting right after a reset (empty event list), a sequence of
    [Set*]/[FireOneShot] calls with [logEvent = true] leaves one event per
    call, in call order, the i-th carrying order index [counter + i], so the
    indices strictly increase along the list.  Over the whole lifetime of a
    logger (fewer than 2^64 calls, so the [uint64_t] counter does not wrap),
    the events delivered by all successful packs, followed by those still
    pending, have strictly increasing and hence pairwise distinct indices;
    a pack serializes the event list in its own order. *)
Theorem order_indices_increasing :
  forall packed_size BusyKeyName,
    (forall s ops,
       Forall (fun op => logged_set op <> None) ops ->
       settingEvents_ s = [] -> 0 <= counter_ s ->
       counter_ s + Z.of_nat (List.length ops) < 2 ^ 64 ->
       let s' := snd (Logger.run packed_size BusyKeyName s ops) in
       map (fun e => (ev_key e, ev_value e)) (settingEvents_ s') = logged_sets ops /\
       List.length (settingEvents_ s') = List.length ops /\
       map ev_count (settingEvents_ s') =
         map (fun i => counter_ s + Z.of_nat i) (seq 0 (List.length ops)) /\
       StronglySorted Z.lt (map ev_count (settingEvents_ s'))) /\
    (forall ops,
       Z.of_nat (List.length ops) < 2 ^ 64 ->
       let (rs, s') := Logger.run packed_size BusyKeyName NewSettingLogger ops in
       StronglySorted Z.lt (map ev_count (Logger.delivered_events rs ++ settingEvents_ s')) /\
       NoDup (map ev_count (Logger.delivered_events rs ++ settingEvents_ s'))) /\
    (forall destSize camera isSeq csn asn s p s',
       Logger.PackAndReset packed_size destSize camera isSeq csn asn s = (true, Some p, s') ->
       pk_history p = settingEvents_ s).
Proof.
  intros packed_size BusyKeyName. split; [| split].
  - intros s ops Hops Hnil H0 Hlen s'.
    destruct (run_logged_sets packed_size BusyKeyName ops s Hops H0 Hlen) as [He _].
    fold s' in He. rewrite Hnil in He. simpl in He. rewrite He.
    destruct (number_events_counts (counter_ s) (logged_sets ops)) as [Hc Hk].
    rewrite logged_sets_length in Hc by exact Hops.
    rewrite Hk, Hc. repeat split.
    + rewrite <- (logged_sets_length ops Hops).
      rewrite <- (length_map (fun e => (ev_key e, ev_value e))), Hk. reflexivity.
    + apply seq_counts_sorted.
  - intros ops Hlen.
    destruct (run_history packed_size BusyKeyName ops NewSettingLogger
                ltac:(simpl; lia) ltac:(simpl; lia)) as (new & Heq & Hs & _ & _).
    destruct (Logger.run packed_size BusyKeyName NewSettingLogger ops) as [rs s'].
    simpl in Heq. rewrite Heq.
    split; [exact Hs | apply StronglySorted_lt_NoDup; exact Hs].
  - intros destSize camera isSeq csn asn s p s' H.
    apply PackAndReset_success_inv in H as (-> & _ & _). reflexivity.
Qed.

Lemma order_indices_increasing_witness :
  let ops := [Logger.OSetInteger "Cam1" "Gain" 5 true;
              Logger.OSetFloat "Cam1" "Exposure" 10.0 true] in
  map ev_count (settingEvents_ (snd (Logger.run (fun _ => 0) "Busy" NewSettingLogger ops)))
  = map (fun i => 0 + Z.of_nat i) (seq 0 2).
Proof.
  apply (proj1 (order_indices_increasing (fun _ => 0) "Busy") NewSettingLogger
           [Logger.OSetInteger "Cam1" "Gain" 5 true;
            Logger.OSetFloat "Cam1" "Exposure" 10.0 true]).
  - apply Forall_cons; [discriminate |].
    apply Forall_cons; [discriminate | apply Forall_nil].
  - reflexivity.
  - simpl. lia.
  - simpl. lia.
Defined.

(** ** The key order [SettingKey::operator<] *)

Lemma string_compare_refl a : String.compare a a = Eq.
Proof.
  induction a as [| c a IH]; simpl; [reflexivity |].
  unfold Ascii.compare. rewrite N.compare_refl. exact IH.
Qed.

Lemma string_compare_trans_lt a : forall b c,
  String.compare a b = Lt -> String.compare b c = Lt -> String.compare a c = Lt.
Proof.
  induction a as [| x a IH]; intros [| y b] [| z c]; simpl; intros H1 H2;
    try discriminate; try reflexivity.
  unfold Ascii.compare in *.
  destruct (N.compare_spec (Ascii.N_of_ascii x) (Ascii.N_of_ascii y)) as [Exy | Exy | Exy];
    try discriminate H1;
  destruct (N.compare_spec (Ascii.N_of_ascii y) (Ascii.N_of_ascii z)) as [Eyz | Eyz | Eyz];
    try discriminate H2.
  - rewrite Exy, Eyz, N.compare_refl. exact (IH _ _ H1 H2).
  - rewrite Exy. apply N.compare_lt_iff in Eyz. rewrite (proj2 (N.compare_lt_iff _ _) Eyz).
    reflexivity.
  - rewrite <- Eyz. rewrite (proj2 (N.compare_lt_iff _ _) Exy). reflexivity.
  - assert (E : (Ascii.N_of_ascii x < Ascii.N_of_ascii z)%N) by lia.
    rewrite (proj2 (N.compare_lt_iff _ _) E). reflexivity.
Qed.

Lemma string_lt_trans a b c :
  string_lt a b = true -> string_lt b c = true -> string_lt a c = true.
Proof.
  unfold string_lt.
  destruct (String.compare a b) eqn:E1; try discriminate.
  destruct (String.compare b c) eqn:E2; try discriminate.
  rewrite (string_compare_trans_lt a b c E1 E2). reflexivity.
Qed.

Lemma string_lt_total a b :
  string_lt a b = false -> string_lt b a = false -> a = b.
Proof.
  unfold string_lt. intros H1 H2.
  apply String.compare_eq_iff.
  rewrite (String.compare_antisym b a) in H2.
  destruct (String.compare a b); simpl in *; congruence.
Qed.

Lemma SettingKey_lt_irrefl a : SettingKey_lt a a = false.
Proof.
  unfold SettingKey_lt. rewrite !string_lt_irrefl, String.eqb_refl. reflexivity.
Qed.

Lemma SettingKey_lt_trans a b c :
  SettingKey_lt a b = true -> SettingKey_lt b c = true -> SettingKey_lt a c = true.
Proof.
  destruct a as [da ka], b as [db kb], c as [dc kc]. unfold SettingKey_lt; simpl.
  intros H1 H2.
  apply Bool.orb_true_iff in H1 as [H1 | H1]; apply Bool.orb_true_iff in H2 as [H2 | H2].
  - rewrite (string_lt_trans _ _ _ H1 H2). reflexivity.
  - apply andb_prop in H2 as [E _]. apply String.eqb_eq in E. subst. rewrite H1. reflexivity.
  - apply andb_prop in H1 as [E _]. apply String.eqb_eq in E. subst. rewrite H2. reflexivity.
  - apply andb_prop in H1 as [E1 H1]. apply andb_prop in H2 as [E2 H2].
    apply String.eqb_eq in E1, E2. subst.
    rewrite String.eqb_refl, (string_lt_trans _ _ _ H1 H2), Bool.orb_true_r. reflexivity.
Qed.

Lemma SettingKey_lt_total a b :
  SettingKey_lt a b = false -> SettingKey_lt b a = false -> a = b.
Proof.
  destruct a as [da ka], b as [db kb]. unfold SettingKey_lt; simpl.
  intros H1 H2.
  apply Bool.orb_false_iff in H1 as [D1 H1]. apply Bool.orb_false_iff in H2 as [D2 H2].
  pose proof (string_lt_total _ _ D1 D2) as Ed. subst db.
  rewrite String.eqb_refl in H1, H2. simpl in H1, H2.
  rewrite (string_lt_total _ _ H1 H2). reflexivity.
Qed.

(** [SettingKey::operator<] is a strict total order on (device, key)
    pairs: irreflexive, transitive, and two keys neither of which is less
    than the other are equal, so the equivalence [std::map] derives from
    it is equality of both strings. *)
Theorem SettingKey_lt_strict_total_order :
  (forall a, SettingKey_lt a a = false) /\
  (forall a b c, SettingKey_lt a b = true -> SettingKey_lt b c = true ->
                 SettingKey_lt a c = true) /\
  (forall a b, a <> b -> SettingKey_lt a b = true \/ SettingKey_lt b a = true) /\
  (forall a b, SettingKey_lt a b = true -> SettingKey_lt b a = false).
Proof.
  split; [exact SettingKey_lt_irrefl | split; [exact SettingKey_lt_trans | split]].
  - intros a b Hne.
    destruct (SettingKey_lt a b) eqn:E1; [left; reflexivity |].
    destruct (SettingKey_lt b a) eqn:E2; [right; reflexivity |].
    exfalso. exact (Hne (SettingKey_lt_total a b E1 E2)).
  - intros a b H.
    destruct (SettingKey_lt b a) eqn:E; [| reflexivity].
    pose proof (SettingKey_lt_trans a b a H E) as C.
    rewrite SettingKey_lt_irrefl in C. discriminate C.
Qed.

(** ** [std::map] assignment and lookup under a strict total order *)

Section MapLaws.
Context {K V : Type} (lt : K -> K -> bool).
Hypothesis lt_irrefl : forall k, lt k k = false.
Hypothesis lt_trans : forall a b c, lt a b = true -> lt b c = true -> lt a c = true.
Hypothesis lt_total : forall a b, lt a b = false -> lt b a = false -> a = b.

Lemma find_assign_other (k k' : K) (v : V) m :
  k <> k' -> OrdMap.find lt k' (OrdMap.assign lt k v m) = OrdMap.find lt k' m.
Proof.
  intros Hne. induction m as [| [k1 v1] t IH]; simpl.
  - destruct (lt k' k) eqn:E1; [reflexivity |].
    destruct (lt k k') eqn:E2; [reflexivity |].
    exfalso. apply Hne. apply lt_total; assumption.
  - destruct (lt k k1) eqn:Ek1; simpl.
    + destruct (lt k' k) eqn:E1.
      * rewrite (lt_trans _ _ _ E1 Ek1). reflexivity.
      * destruct (lt k k') eqn:E2; [reflexivity |].
        exfalso. apply Hne. apply lt_total; assumption.
    + destruct (lt k1 k) eqn:E1k; simpl; [rewrite IH; reflexivity |].
      pose proof (lt_total _ _ Ek1 E1k) as ->.
      destruct (lt k' k1) eqn:E1; [reflexivity |].
      destruct (lt k1 k') eqn:E2; [reflexivity |].
      exfalso. apply Hne. apply lt_total; assumption.
Qed.

Lemma keys_assign (k x : K) (v : V) m :
  In x (map fst (OrdMap.assign lt k v m)) -> x = k \/ In x (map fst m).
Proof.
  induction m as [| [k1 v1] t IH]; simpl; intros H.
  - destruct H as [H | []]. left; auto.
  - destruct (lt k k1); simpl in H.
    + destruct H as [H | H]; auto.
    + destruct (lt k1 k); simpl in H.
      * destruct H as [H | H]; auto. destruct (IH H); auto.
      * destruct H as [H | H]; auto.
Qed.

Lemma assign_sorted (k : K) (v : V) m :
  key_sorted lt m -> key_sorted lt (OrdMap.assign lt k v m).
Proof.
  unfold key_sorted.
  induction m as [| [k1 v1] t IH]; simpl; intros Hs.
  - repeat constructor.
  - inversion Hs as [| ? ? Hst Hf]; subst.
    destruct (lt k k1) eqn:Ek1; simpl.
    + constructor; [exact Hs |]. constructor; [exact Ek1 |].
      eapply Forall_impl; [| exact Hf]. intros a Ha. exact (lt_trans _ _ _ Ek1 Ha).
    + destruct (lt k1 k) eqn:E1k; simpl.
      * constructor; [exact (IH Hst) |].
        apply Forall_forall. intros x Hx.
        destruct (keys_assign k x v t Hx) as [-> | Hin]; [exact E1k |].
        rewrite Forall_forall in Hf. exact (Hf x Hin).
      * pose proof (lt_total _ _ Ek1 E1k) as ->. exact Hs.
Qed.

Lemma find_sorted_In (k : K) (v : V) m :
  key_sorted lt m -> In (k, v) m -> OrdMap.find lt k m = Some v.
Proof.
  unfold key_sorted.
  induction m as [| [k1 v1] t IH]; simpl; intros Hs Hin; [contradiction |].
  inversion Hs as [| ? ? Hst Hf]; subst.
  destruct Hin as [E | Hin].
  - inversion E; subst. rewrite lt_irrefl. reflexivity.
  - assert (H1 : lt k1 k = true).
    { rewrite Forall_forall in Hf. apply Hf. apply (in_map fst) in Hin. exact Hin. }
    assert (H2 : lt k k1 = false).
    { destruct (lt k k1) eqn:E; [| reflexivity].
      pose proof (lt_trans _ _ _ E H1) as C. rewrite lt_irrefl in C. discriminate C. }
    rewrite H1, H2. exact (IH Hst Hin).
Qed.
End MapLaws.

(** Assigning to a [SettingMap] (ordered by [SettingKey::operator<]) or to
    the busy-point map (ordered by [std::string::operator<]) and looking the
    same key up returns the assigned value; every other key keeps its
    previous lookup result. *)
Theorem map_assign_find :
  (forall (k k' : SettingKey) (v : SettingValue) (m : SettingMap),
     OrdMap.find SettingKey_lt k (OrdMap.assign SettingKey_lt k v m) = Some v /\
     (k' <> k ->
      OrdMap.find SettingKey_lt k' (OrdMap.assign SettingKey_lt k v m) =
      OrdMap.find SettingKey_lt k' m)) /\
  (forall (d d' : string) (c : Z) (b : BusyMap),
     OrdMap.find string_lt d (OrdMap.assign string_lt d c b) = Some c /\
     (d' <> d ->
      OrdMap.find string_lt d' (OrdMap.assign string_lt d c b) =
      OrdMap.find string_lt d' b)).
Proof.
  split.
  - intros k k' v m. split.
    + apply find_assign_same, SettingKey_lt_irrefl.
    + intros Hne. apply find_assign_other;
        [exact SettingKey_lt_trans | exact SettingKey_lt_total | congruence].
  - intros d d' c b. split.
    + apply find_assign_same, string_lt_irrefl.
    + intros Hne. apply find_assign_other;
        [exact string_lt_trans | exact string_lt_total | congruence].
Qed.

Lemma map_assign_find_witness :
  let m := OrdMap.assign SettingKey_lt (mkSettingKey "Cam1" "Gain")
             (IntegerSettingValue 5) [] in
  OrdMap.find SettingKey_lt (mkSettingKey "Cam1" "Exposure")
    (OrdMap.assign SettingKey_lt (mkSettingKey "Cam1" "Gain") (IntegerSettingValue 7) m) =
  OrdMap.find SettingKey_lt (mkSettingKey "Cam1" "Exposure") m.
Proof.
  apply (proj2 (proj1 map_assign_find (mkSettingKey "Cam1" "Gain")
                  (mkSettingKey "Cam1" "Exposure") (IntegerSettingValue 7)
                  (OrdMap.assign SettingKey_lt (mkSettingKey "Cam1" "Gain")
                     (IntegerSettingValue 5) []))).
  discriminate.
Defined.

Lemma SetValue_maps d k v l s :
  settingValues_ (Logger.SetValue d k v l s) =
    OrdMap.assign SettingKey_lt (mkSettingKey d k) v (settingValues_ s) /\
  startingValues_ (Logger.SetValue d k v l s) = startingValues_ s /\
  busyPoints_ (Logger.SetValue d k v l s) = busyPoints_ s.
Proof. destruct l; repeat split. Qed.

Lemma exec_maps_sorted packed_size BusyKeyName s op :
  maps_sorted s -> maps_sorted (snd (Logger.exec packed_size BusyKeyName s op)).
Proof.
  intros (H1 & H2 & H3).
  pose proof (@assign_sorted SettingKey SettingValue SettingKey_lt SettingKey_lt_trans
                SettingKey_lt_total) as HaK.
  pose proof (@assign_sorted string Z string_lt string_lt_trans
                string_lt_total) as HaS.
  destruct op; simpl;
    unfold Logger.SetInteger, Logger.SetFloat, Logger.SetString, Logger.FireOneShot;
    try match goal with
        | |- maps_sorted (Logger.SetValue ?d ?k ?v ?l s) =>
            destruct (SetValue_maps d k v l s) as (E1 & E2 & E3);
            unfold maps_sorted; rewrite E1, E2, E3; split; [apply HaK; exact H1 | auto]
        end;
    try (split; [exact H1 | auto]).
  - (* MarkBusy *)
    unfold Logger.MarkBusy. destruct logEvent; unfold maps_sorted; simpl;
      repeat split; auto.
  - (* IsBusy *)
    unfold Logger.IsBusy. destruct_ifs; unfold maps_sorted; simpl; repeat split; auto.
  - (* PackAndReset *)
    destruct (PackAndReset_cases packed_size destSize camera isSequenceImage
                cameraSeqNum acquisitionSeqNum s) as [E | E];
      rewrite E; unfold maps_sorted; simpl; auto.
Qed.

Lemma run_maps_sorted packed_size BusyKeyName ops : forall t,
  maps_sorted t -> maps_sorted (snd (Logger.run packed_size BusyKeyName t ops)).
Proof.
  induction ops as [| op ops IH]; intros t Ht; simpl; [exact Ht |].
  pose proof (exec_maps_sorted packed_size BusyKeyName t op Ht) as H1.
  destruct (Logger.exec packed_size BusyKeyName t op) as [r t1].
  specialize (IH t1 H1).
  destruct (Logger.run packed_size BusyKeyName t1 ops). exact IH.
Qed.

Lemma strictly_sorted_NoDup {K : Type} (lt : K -> K -> bool) (l : list K) :
  (forall k, lt k k = false) -> StronglySorted (fun a b => lt a b = true) l -> NoDup l.
Proof.
  intros Hirr. induction 1 as [| a l Hs IH Hf]; constructor; [| exact IH].
  intros Hin. rewrite Forall_forall in Hf. specialize (Hf a Hin).
  rewrite Hirr in Hf. discriminate Hf.
Qed.

(** On every logger reachable from the constructor, the live table and the
    starting values are in strictly increasing [SettingKey::operator<]
    order and the busy points in strictly increasing device-name order, so
    each (device, key) and each device has at most one entry, and a lookup
    finds every stored entry. *)
Theorem reachable_maps_sorted :
  forall packed_size BusyKeyName ops,
    let s := snd (Logger.run packed_size BusyKeyName NewSettingLogger ops) in
    maps_sorted s /\
    NoDup (map fst (settingValues_ s)) /\ NoDup (map fst (busyPoints_ s)) /\
    (forall k v, In (k, v) (settingValues_ s) ->
                 OrdMap.find SettingKey_lt k (settingValues_ s) = Some v) /\
    (forall d c, In (d, c) (busyPoints_ s) ->
                 OrdMap.find string_lt d (busyPoints_ s) = Some c).
Proof.
  intros packed_size BusyKeyName ops s.
  assert (Hs : maps_sorted s).
  { apply run_maps_sorted. repeat split; constructor. }
  destruct Hs as (H1 & H2 & H3).
  split; [repeat split; assumption |].
  split; [exact (strictly_sorted_NoDup _ _ SettingKey_lt_irrefl H1) |].
  split; [exact (strictly_sorted_NoDup _ _ string_lt_irrefl H3) |].
  split.
  - intros k v Hin. apply find_sorted_In;
      [exact SettingKey_lt_irrefl | exact SettingKey_lt_trans | exact H1 | exact Hin].
  - intros d c Hin. apply find_sorted_In;
      [exact string_lt_irrefl | exact string_lt_trans | exact H3 | exact Hin].
Qed.

(** [GetNextCount] ([return counter_++]) called [n] times from a counter
    [c] returns [c], [c+1], ..., [c+n-1] modulo 2^64 and leaves the counter
    at [(c+n) mod 2^64]: after [2^64 - 1] the order index wraps to 0. *)
Theorem GetNextCount_sequence :
  forall n s,
    0 <= counter_ s < 2 ^ 64 ->
    fst (GetNextCounts n s) =
      map (fun i => (counter_ s + Z.of_nat i) mod 2 ^ 64) (seq 0 n) /\
    counter_ (snd (GetNextCounts n s)) = (counter_ s + Z.of_nat n) mod 2 ^ 64.
Proof.
  intros n. induction n as [| n IH]; intros s Hs; simpl.
  - split; [reflexivity |]. rewrite Z.add_0_r. symmetry. apply Z.mod_small. exact Hs.
  - assert (Hr : 0 <= uint64_wrap (counter_ s + 1) < 2 ^ 64)
      by (unfold uint64_wrap; apply Z.mod_pos_bound; lia).
    destruct (IH (set_counter (uint64_wrap (counter_ s + 1)) s) Hr) as [E1 E2].
    destruct (GetNextCounts n (set_counter (uint64_wrap (counter_ s + 1)) s)) as [cs s2].
    simpl in E1, E2 |- *. unfold uint64_wrap in E1, E2.
    split.
    + rewrite E1, Z.add_0_r, (Z.mod_small (counter_ s)) by exact Hs. f_equal.
      rewrite <- seq_shift, map_map. apply map_ext. intros i.
      rewrite Z.add_mod_idemp_l by lia. f_equal. lia.
    + rewrite E2, Z.add_mod_idemp_l by lia. f_equal. lia.
Qed.

Lemma GetNextCount_sequence_witness :
  fst (GetNextCounts 2 (set_counter (2 ^ 64 - 1) NewSettingLogger)) = [2 ^ 64 - 1; 0].
Proof.
  rewrite (proj1 (GetNextCount_sequence 2 (set_counter (2 ^ 64 - 1) NewSettingLogger)
                    ltac:(simpl; lia))).
  reflexivity.
Defined.

(** ** Threads sharing the logger under its mutex *)

Lemma run_snoc packed_size BusyKeyName pre op : forall s,
  Logger.run packed_size BusyKeyName s (pre ++ [op]) =
  (fst (Logger.run packed_size BusyKeyName s pre) ++
     [fst (Logger.exec packed_size BusyKeyName
             (snd (Logger.run packed_size BusyKeyName s pre)) op)],
   snd (Logger.exec packed_size BusyKeyName
          (snd (Logger.run packed_size BusyKeyName s pre)) op)).
Proof.
  induction pre as [|op0 pre IH]; intros s; simpl.
  - destruct (Logger.exec packed_size BusyKeyName s op); reflexivity.
  - destruct (Logger.exec packed_size BusyKeyName s op0) as [r s1].
    rewrite IH.
    destruct (Logger.run packed_size BusyKeyName s1 pre); reflexivity.
Qed.

Lemma firstn_S_nth_error {A} (l : list A) (n : nat) (x : A) :
  nth_error l n = Some x -> firstn (S n) l = firstn n l ++ [x].
Proof.
  revert n; induction l as [|a l IH]; intros [|n] H; simpl in *; try discriminate.
  - injection H as ->; reflexivity.
  - rewrite (IH n H); reflexivity.
Qed.

Lemma run_micro_snoc fs f st :
  Interleaving.run_micro (fs ++ [f]) st = f (Interleaving.run_micro fs st).
Proof. unfold Interleaving.run_micro; rewrite fold_left_app; reflexivity. Qed.

Lemma update_eq ths t th : Interleaving.update ths t th t = th.
Proof. unfold Interleaving.update; rewrite Nat.eqb_refl; reflexivity. Qed.

Lemma update_neq ths t th j : j <> t -> Interleaving.update ths t th j = ths j.
Proof.
  intros H; unfold Interleaving.update.
  destruct (Nat.eqb_spec j t); [contradiction | reflexivity].
Qed.

Lemma Inv_init packed_size BusyKeyName body lg0 todos :
  Interleaving.Inv body packed_size BusyKeyName lg0 (Interleaving.init lg0 todos).
Proof.
  split; [|split]; simpl.
  - intros t H; contradiction.
  - intros _; split; reflexivity.
  - intros t H; discriminate.
Qed.

Section StepInv.
Variables (packed_size : Packed -> Z) (BusyKeyName : string)
  (body : Logger.Op -> list Interleaving.Micro).
Hypothesis refines : forall s op,
  Interleaving.run_micro (body op) (s, Logger.RVoid) =
  (snd (Logger.exec packed_size BusyKeyName s op),
   fst (Logger.exec packed_size BusyKeyName s op)).

Lemma Inv_step lg0 sys t :
  Interleaving.Inv body packed_size BusyKeyName lg0 sys ->
  Interleaving.Inv body packed_size BusyKeyName lg0 (Interleaving.step body sys t).
Proof.
  intros Hinv. pose proof Hinv as (Hcur & Hfree & Hheld).
  unfold Interleaving.step.
  destruct (Interleaving.th_cur (Interleaving.sys_threads sys t))
    as [[[op n] reg]|] eqn:Ecur.
  - assert (Hl : Interleaving.sys_lock sys = Some t) by (apply Hcur; congruence).
    destruct (Hheld t Hl) as (op' & n' & reg' & pre & Hacq & Hc & Hn & Hrel & Hst).
    rewrite Ecur in Hc; injection Hc as <- <- <-.
    destruct (nth_error (body op) n) as [f|] eqn:Enth.
    + destruct (f (Interleaving.sys_logger sys, reg)) as [lg' reg'] eqn:Ef.
      split; [|split]; cbn [Interleaving.sys_threads Interleaving.sys_lock
                            Interleaving.sys_logger Interleaving.sys_acquired
                            Interleaving.sys_released].
      * intros j Hj. destruct (Nat.eq_dec j t) as [->|Hne]; [exact Hl|].
        rewrite update_neq in Hj by exact Hne. apply Hcur; exact Hj.
      * intros H; congruence.
      * intros j Hj. rewrite Hl in Hj; injection Hj as <-.
        exists op, (S n), reg', pre.
        rewrite update_eq; cbn [Interleaving.th_cur].
        split; [exact Hacq|]. split; [reflexivity|].
        split; [apply nth_error_Some; congruence|].
        split; [exact Hrel|].
        rewrite (firstn_S_nth_error _ _ _ Enth), run_micro_snoc, <- Hst. symmetry. exact Ef.
    + assert (Hlen : n = List.length (body op)).
      { apply nth_error_None in Enth; lia. }
      rewrite Hlen, firstn_all, refines in Hst.
      injection Hst as Hlg Hreg.
      split; [|split]; simpl.
      * intros j Hj. destruct (Nat.eq_dec j t) as [->|Hne].
        -- rewrite update_eq in Hj; simpl in Hj; contradiction.
        -- rewrite update_neq in Hj by exact Hne.
           apply Hcur in Hj; congruence.
      * intros _. rewrite Hacq, run_snoc; simpl.
        split; [exact Hlg|]. rewrite Hrel, Hreg; reflexivity.
      * intros j Hj; discriminate.
  - destruct (Interleaving.th_todo (Interleaving.sys_threads sys t)) as [|op rest] eqn:Etodo.
    + exact Hinv.
    + destruct (Interleaving.sys_lock sys) eqn:El.
      * exact Hinv.
      * destruct (Hfree eq_refl) as [Hlg Hrel].
        split; [|split]; simpl.
        -- intros j Hj. destruct (Nat.eq_dec j t) as [->|Hne]; [reflexivity|].
           rewrite update_neq in Hj by exact Hne.
           apply Hcur in Hj; congruence.
        -- intros H; discriminate.
        -- intros j Hj; injection Hj as <-.
           exists op, 0%nat, Logger.RVoid, (Interleaving.sys_acquired sys).
           rewrite update_eq; simpl.
           split; [reflexivity|]. split; [reflexivity|].
           split; [lia|]. split; [exact Hrel|].
           rewrite Hlg; reflexivity.
Qed.

Lemma Inv_schedule lg0 sched : forall sys,
  Interleaving.Inv body packed_size BusyKeyName lg0 sys ->
  Interleaving.Inv body packed_size BusyKeyName lg0 (Interleaving.schedule body sys sched).
Proof.
  induction sched as [|t sched IH]; intros sys H; simpl; [exact H|].
  apply IH, Inv_step, H.
Qed.
End StepInv.

Lemma fine_body_refines packed_size BusyKeyName s op :
  Interleaving.run_micro (Interleaving.fine_body packed_size BusyKeyName op) (s, Logger.RVoid) =
  (snd (Logger.exec packed_size BusyKeyName s op),
   fst (Logger.exec packed_size BusyKeyName s op)).
Proof.
  destruct op as [d k v [|]|d k|d k v [|]|d k|d k v [|]|d k|d k [|]|d b|d|n c q cs acs];
    try reflexivity;
    unfold Interleaving.fine_body, Interleaving.atomic_body, Interleaving.run_micro;
    cbn [fold_left fst];
    lazymatch goal with
    | |- context [Logger.exec ?a ?b ?c ?d] => destruct (Logger.exec a b c d)
    end; reflexivity.
Qed.

(** C9: with every public method holding the logger's single mutex for its
    whole body, any interleaving of the threads' micro-steps under any
    schedule is equivalent to the serial run of the calls in
    lock-acquisition order: at most one call is in progress at a time;
    whenever the mutex is free the logger and all returned results are
    exactly those of the serial run; and while a call holds the mutex the
    logger it works on is the serial state after all earlier calls have
    completed, changed only by its own steps, so a pack never sees a
    partially recorded event of another call.  This holds for any
    decomposition of the method bodies into micro-steps that, run in
    sequence, performs the method. *)
Theorem lock_serializes packed_size BusyKeyName
    (body : Logger.Op -> list Interleaving.Micro)
    (refines : forall s op,
       Interleaving.run_micro (body op) (s, Logger.RVoid) =
       (snd (Logger.exec packed_size BusyKeyName s op),
        fst (Logger.exec packed_size BusyKeyName s op)))
    lg0 todos sched :
  let sys := Interleaving.schedule body (Interleaving.init lg0 todos) sched in
  (forall t t', Interleaving.th_cur (Interleaving.sys_threads sys t) <> None ->
                Interleaving.th_cur (Interleaving.sys_threads sys t') <> None -> t = t') /\
  (Interleaving.sys_lock sys = None ->
   Interleaving.sys_logger sys =
     snd (Logger.run packed_size BusyKeyName lg0 (Interleaving.sys_acquired sys)) /\
   Interleaving.sys_released sys =
     fst (Logger.run packed_size BusyKeyName lg0 (Interleaving.sys_acquired sys))) /\
  (forall t, Interleaving.sys_lock sys = Some t ->
   exists op n reg pre,
     Interleaving.sys_acquired sys = pre ++ [op] /\
     Interleaving.th_cur (Interleaving.sys_threads sys t) = Some (op, n, reg) /\
     Interleaving.sys_released sys = fst (Logger.run packed_size BusyKeyName lg0 pre) /\
     (Interleaving.sys_logger sys, reg) =
       Interleaving.run_micro (firstn n (body op))
         (snd (Logger.run packed_size BusyKeyName lg0 pre), Logger.RVoid)).
Proof.
  intros sys.
  destruct (Inv_schedule packed_size BusyKeyName body refines lg0 sched
              (Interleaving.init lg0 todos) (Inv_init _ _ _ _ _))
    as (Hcur & Hfree & Hheld).
  split; [|split].
  - intros t t' H1 H2.
    apply Hcur in H1; apply Hcur in H2. congruence.
  - exact Hfree.
  - intros t Ht.
    destruct (Hheld t Ht) as (op & n & reg & pre & H1 & H2 & _ & H4 & H5).
    exists op, n, reg, pre. auto.
Qed.

Lemma lock_serializes_witness :
  Interleaving.sys_lock
    (Interleaving.schedule (Interleaving.fine_body starting_size "Busy")
       (Interleaving.init NewSettingLogger Interleaving.demo_todos)
       Interleaving.demo_schedule) = None /\
  Interleaving.sys_logger
    (Interleaving.schedule (Interleaving.fine_body starting_size "Busy")
       (Interleaving.init NewSettingLogger Interleaving.demo_todos)
       Interleaving.demo_schedule) =
  snd (Logger.run starting_size "Busy" NewSettingLogger
         (Interleaving.sys_acquired
            (Interleaving.schedule (Interleaving.fine_body starting_size "Busy")
               (Interleaving.init NewSettingLogger Interleaving.demo_todos)
               Interleaving.demo_schedule))).
Proof.
  pose proof (lock_serializes starting_size "Busy"
                (Interleaving.fine_body starting_size "Busy")
                (fine_body_refines starting_size "Busy")
                NewSettingLogger Interleaving.demo_todos Interleaving.demo_schedule)
    as H.
  cbv zeta in H.
  assert (Hl : Interleaving.sys_lock
                 (Interleaving.schedule (Interleaving.fine_body starting_size "Busy")
                    (Interleaving.init NewSettingLogger Interleaving.demo_todos)
                    Interleaving.demo_schedule) = None)
    by (vm_compute; reflexivity).
  split; [exact Hl|].
  exact (proj1 (proj1 (proj2 H) Hl)).
Defined.
